(** * NLPproject: news sentiment versus stock movement

    A shallow embedding of the data transformations of [NLPproject.ipynb]
    (text cleaning, the financial sentiment adjustment, the aggregation by
    date, the merge with the price series, the lag / rolling features and
    the hourly movement label), with the properties of the written
    specification stated and settled against it.

    Conventions of the embedding.
    - A Python [str] is a [string]; a character [ascii] stands for the code
      point of the same number (U+0000 .. U+00FF), and the character classes
      below are the ones Python uses on that range. The text cleaning
      function is also given on any type of code points, with the character
      classes as parameters ([Unicode]).
    - A Python [float] score is an exact rational [Q]; an undefined cell
      (pandas [NaN]) of a column is [None].
    - A pandas column is a [list]; a calendar date is a day number [Z]. *)

From Stdlib Require Import ZArith QArith Qminmax Qround Lia Lqa List Ascii String Bool.
From stdpp Require Import base decidable list sorting gmap sets strings.

Local Open Scope Q_scope.
Local Open Scope string_scope.
Local Open Scope list_scope.

(** ** Python strings *)

Module PyStr.

Definition code (c : ascii) : N := N_of_ascii c.

(** [str.isspace] on one character: the separators of [str.split()] and
    the class [\s] of [re]. *)
Definition isspace (c : ascii) : bool :=
  let n := code c in
  ((9 <=? n) && (n <=? 13) || (28 <=? n) && (n <=? 32)
   || (n =? 133) || (n =? 160))%N.

(** [str.isupper] on one character. *)
Definition isupper (c : ascii) : bool :=
  let n := code c in
  ((65 <=? n) && (n <=? 90)
   || (192 <=? n) && (n <=? 222) && negb (n =? 215))%N.

(** [str.isalnum] on one character. *)
Definition isalnum (c : ascii) : bool :=
  let n := code c in
  ((48 <=? n) && (n <=? 57) || (65 <=? n) && (n <=? 90)
   || (97 <=? n) && (n <=? 122)
   || (n =? 170) || (n =? 178) || (n =? 179) || (n =? 181)
   || (n =? 185) || (n =? 186) || (188 <=? n) && (n <=? 190)
   || (192 <=? n) && negb (n =? 215) && negb (n =? 247))%N.

(** The class [\w] of [re] on a [str] pattern: alphanumerics and the
    underscore. *)
Definition isword (c : ascii) : bool := isalnum c || (code c =? 95)%N.

Definition lower_char (c : ascii) : ascii :=
  if isupper c then ascii_of_N (code c + 32) else c.

(** [str.lower()] *)
Fixpoint lower (s : string) : string :=
  match s with
  | EmptyString => EmptyString
  | String c s' => String (lower_char c) (lower s')
  end.

Definition flush (word : string) : list string :=
  match word with
  | EmptyString => []
  | _ => [word]
  end.

(** The scan of [str.split()]: [word] is the token being read. *)
Fixpoint split_from (word : string) (s : string) : list string :=
  match s with
  | EmptyString => flush word
  | String c s' =>
      if isspace c then flush word ++ split_from EmptyString s'
      else split_from (word +:+ String c EmptyString) s'
  end.

(** [str.split()] with no argument: maximal runs of non-space characters. *)
Definition split (s : string) : list string := split_from EmptyString s.

(** [sep.join(words)] *)
Fixpoint join (sep : string) (words : list string) : string :=
  match words with
  | [] => EmptyString
  | [w] => w
  | w :: ws => w +:+ sep +:+ join sep ws
  end.

(** [re.sub(r'[^\w\s]', '', s)] *)
Fixpoint strip_punct (s : string) : string :=
  match s with
  | EmptyString => EmptyString
  | String c s' =>
      if isword c || isspace c then String c (strip_punct s')
      else strip_punct s'
  end.

Fixpoint chars (s : string) : list ascii :=
  match s with
  | EmptyString => []
  | String c s' => c :: chars s'
  end.

End PyStr.

(** ** Scores *)

(** Python's two-argument [min] and [max]: the first argument is kept
    unless the second is strictly smaller (resp. greater). *)
Definition py_min (a b : Q) : Q := if Qle_bool a b then a else b.
Definition py_max (a b : Q) : Q := if Qle_bool b a then a else b.

(** ** The financial sentiment adjustment *)

Section Adjuster.

(** The two word sets read from the Loughran-McDonald dictionary. *)
Variables lm_positive lm_negative : gset string.

(** One iteration of the loop over [words]. *)
Definition count_word (acc : Z * Z) (word : string) : Z * Z :=
  let '(pos_score, neg_score) := acc in
  if bool_decide (word ∈ lm_positive) then (pos_score + 1, neg_score)%Z
  else if bool_decide (word ∈ lm_negative) then (pos_score, neg_score + 1)%Z
  else (pos_score, neg_score).

Definition lexicon_scores (words : list string) : Z * Z :=
  fold_left count_word words (0, 0)%Z.

Definition financial_sentiment_adjustment
    (text : string) (sentiment_score : Q) : Q :=
  let words := PyStr.split (PyStr.lower text) in
  let '(pos_score, neg_score) := lexicon_scores words in
  let adjusted :=
    sentiment_score + inject_Z (pos_score - neg_score) * (1 # 10) in
  py_max (-1) (py_min 1 adjusted).

End Adjuster.

(** ** The text cleaning function *)

Section Cleaner.

(** [stop_words]: the English stop-word list of NLTK, as a set.
    [word_tokenize]: NLTK's tokenizer, an external library function. *)
Variable stop_words : gset string.
Variable word_tokenize : string -> list string.

Definition clean_text (text : string) : string :=
  let text := PyStr.lower text in
  let text := PyStr.strip_punct text in
  PyStr.join " "
    (filter (fun word => word ∉ stop_words) (word_tokenize text)).

End Cleaner.

(** What the cleaning function relies on from the tokenizer, on a text
    that holds word characters and white space only: every token is a
    non-empty run of characters of the text, none of them white space, and
    the empty text has no token. *)
Record tokenizer_contract (word_tokenize : string -> list string) : Prop := {
  tokenize_empty : word_tokenize "" = [];
  tokenize_tokens : forall text word,
    Forall (fun c => PyStr.isword c || PyStr.isspace c = true)
           (PyStr.chars text) ->
    word ∈ word_tokenize text ->
    word <> "" /\
    Forall (fun c => c ∈ PyStr.chars text /\ PyStr.isspace c = false)
           (PyStr.chars word)
}.

(** ** Data frames *)

Definition Qsum (xs : list Q) : Q := foldr Qplus 0 xs.

(** [Series.mean()]: undefined on an empty series. *)
Definition mean (xs : list Q) : option Q :=
  match xs with
  | [] => None
  | _ => Some (Qsum xs / inject_Z (Z.of_nat (length xs)))
  end.

(** A row of [news_df] once the sentiment columns are there. *)
Record NewsRow := {
  publishedAt : Z;
  cleaned_title : string;
  sentiment : Q;
  adjusted_sentiment : Q
}.

(** A row of [stock_data]. *)
Record PricePoint := { Date : Z; Close : Q }.

Section Scoring.

Variables lm_positive lm_negative stop_words : gset string.
Variable word_tokenize : string -> list string.
(** [sia.polarity_scores(x)['compound']] *)
Variable compound : string -> Q.

Definition score_article (title : string) (published : Z) : NewsRow :=
  let cleaned := clean_text stop_words word_tokenize title in
  let s := compound cleaned in
  {| publishedAt := published;
     cleaned_title := cleaned;
     sentiment := s;
     adjusted_sentiment :=
       financial_sentiment_adjustment lm_positive lm_negative cleaned s |}.

End Scoring.

(** *** Aggregation by date *)

(** The group keys of [groupby]: each key once, in ascending order. *)
Fixpoint insert_key (k : Z) (keys : list Z) : list Z :=
  match keys with
  | [] => [k]
  | k' :: keys' =>
      if (k <? k')%Z then k :: keys
      else if (k =? k')%Z then keys
      else k' :: insert_key k keys'
  end.

Definition group_keys (keys : list Z) : list Z := foldr insert_key [] keys.

Definition on_date (d : Z) (news_df : list NewsRow) : list NewsRow :=
  filter (fun r => publishedAt r = d) news_df.

(** [news_df.groupby('publishedAt')['adjusted_sentiment'].mean().reset_index()] *)
Definition daily_adjusted_sentiment (news_df : list NewsRow)
    : list (Z * option Q) :=
  (fun d => (d, mean (adjusted_sentiment <$> on_date d news_df)))
    <$> group_keys (publishedAt <$> news_df).

(** *** Merge with the price series *)

Record MergedRow := { news : NewsRow; price : PricePoint }.

(** [pd.merge(left, right, left_on=.., right_on=.., how='inner')]: the
    matching pairs, in the order of the left keys. *)
Definition merge_inner (left : list NewsRow) (right : list PricePoint)
    : list MergedRow :=
  left ≫= fun l =>
    (fun r => {| news := l; price := r |})
      <$> filter (fun r => Date r = publishedAt l) right.

(** *** Column operations *)

(** [Series.shift(periods)] *)
Definition shift {A} (periods : Z) (col : list (option A)) : list (option A) :=
  if (0 <=? periods)%Z
  then take (length col) (replicate (Z.to_nat periods) None ++ col)
  else drop (Z.to_nat (- periods)) col
       ++ replicate (Z.to_nat (- periods) `min` length col) None.

(** [Series.rolling(window).mean()], as a scan that keeps the last
    [window] observations; a cell is defined once the window is full. *)
Fixpoint rolling_from (window : nat) (buf : list Q) (col : list Q)
    : list (option Q) :=
  match col with
  | [] => []
  | x :: col' =>
      let buf' := drop (length (buf ++ [x]) - window) (buf ++ [x]) in
      (if (length buf' =? window)%nat then mean buf' else None)
        :: rolling_from window buf' col'
  end.

Definition rolling_mean (window : nat) (col : list Q) : list (option Q) :=
  rolling_from window [] col.

(** [fillna(method='ffill')] on one column. *)
Definition fill_cell {A} (prev cur : option A) : option A :=
  match cur with
  | Some _ => cur
  | None => prev
  end.

Fixpoint ffill_from {A} (prev : option A) (col : list (option A))
    : list (option A) :=
  match col with
  | [] => []
  | x :: col' => fill_cell prev x :: ffill_from (fill_cell prev x) col'
  end.

Definition ffill {A} (col : list (option A)) : list (option A) :=
  ffill_from None col.

(** *** Feature engineering *)

(** A row of [merged_data] after the feature engineering block. *)
Record FeatureRow := {
  merged : MergedRow;
  lagged_sentiment : option Q;
  MA_7_day : option Q
}.

Definition feature_engineering (merged_data : list MergedRow)
    : list FeatureRow :=
  let lagged :=
    shift 1 ((fun r => Some (adjusted_sentiment (news r))) <$> merged_data) in
  let ma := rolling_mean 7 ((fun r => Close (price r)) <$> merged_data) in
  zip_with (fun r '(l, m) =>
              {| merged := r; lagged_sentiment := l; MA_7_day := m |})
           merged_data (zip (ffill lagged) (ffill ma)).

Definition build_features (news_df : list NewsRow)
    (stock_data : list PricePoint) : list FeatureRow :=
  feature_engineering (merge_inner news_df stock_data).

(** ** The hourly movement data set *)

Module Hourly.

(** The numeric columns of a row of [merged_data] when the hourly block
    starts; [index] is the hour of the row's time stamp. *)
Record Row := {
  index : Z;
  sentiment : option Q;
  adjusted_sentiment : option Q;
  Close : option Q;
  lagged_sentiment : option Q;
  MA_7_day : option Q
}.

(** The mean of a bucket skips the undefined cells. *)
Definition nanmean (cells : list (option Q)) : option Q :=
  mean (omap id cells).

Definition bucket (rows : list Row) (h : Z) : Row :=
  let inside := filter (fun r => index r = h) rows in
  {| index := h;
     sentiment := nanmean (sentiment <$> inside);
     adjusted_sentiment := nanmean (adjusted_sentiment <$> inside);
     Close := nanmean (Close <$> inside);
     lagged_sentiment := nanmean (lagged_sentiment <$> inside);
     MA_7_day := nanmean (MA_7_day <$> inside) |}.

(** [resample('H').mean()]: one bucket per hour from the first time
    stamp to the last one. *)
Definition resample_H_mean (rows : list Row) : list Row :=
  match index <$> rows with
  | [] => []
  | h :: hs =>
      let first := foldr Z.min h hs in
      let last := foldr Z.max h hs in
      bucket rows <$> seqZ first (last - first + 1)
  end.

Definition fill_row (prev cur : Row) : Row :=
  {| index := index cur;
     sentiment := fill_cell (sentiment prev) (sentiment cur);
     adjusted_sentiment :=
       fill_cell (adjusted_sentiment prev) (adjusted_sentiment cur);
     Close := fill_cell (Close prev) (Close cur);
     lagged_sentiment :=
       fill_cell (lagged_sentiment prev) (lagged_sentiment cur);
     MA_7_day := fill_cell (MA_7_day prev) (MA_7_day cur) |}.

Fixpoint ffill_rows (prev : Row) (rows : list Row) : list Row :=
  match rows with
  | [] => []
  | r :: rows' => fill_row prev r :: ffill_rows (fill_row prev r) rows'
  end.

(** [fillna(method='ffill')] on every column of the frame. *)
Definition fillna_ffill (rows : list Row) : list Row :=
  match rows with
  | [] => []
  | r :: rows' => r :: ffill_rows r rows'
  end.

(** [a > b] on two cells: a comparison with an undefined cell is false. *)
Definition gt (a b : option Q) : bool :=
  match a, b with
  | Some x, Some y => negb (Qle_bool x y)
  | _, _ => false
  end.

Definition astype_int (b : bool) : Z := if b then 1%Z else 0%Z.

Record Labelled := { features : Row; Movement : Z }.

Definition set_lagged (l : option Q) (r : Row) : Row :=
  {| index := index r;
     sentiment := sentiment r;
     adjusted_sentiment := adjusted_sentiment r;
     Close := Close r;
     lagged_sentiment := l;
     MA_7_day := MA_7_day r |}.

(** The two column assignments after the resampling. *)
Definition label (hourly : list Row) : list Labelled :=
  let close := Close <$> hourly in
  let movement :=
    zip_with (fun next cur => astype_int (gt next cur))
             (shift (-1) close) close in
  let lagged := shift 1 (adjusted_sentiment <$> hourly) in
  zip_with (fun r '(m, l) => {| features := set_lagged l r; Movement := m |})
           hourly (zip movement lagged).

Definition complete (r : Row) : bool :=
  bool_decide (is_Some (sentiment r))
  && bool_decide (is_Some (adjusted_sentiment r))
  && bool_decide (is_Some (Close r))
  && bool_decide (is_Some (lagged_sentiment r))
  && bool_decide (is_Some (MA_7_day r)).

(** [dropna()]: the rows without an undefined cell ([Movement] is an
    integer column and has none). *)
Definition dropna (rows : list Labelled) : list Labelled :=
  filter (fun r => complete (features r) = true) rows.

Definition merged_data_hourly (merged_data : list Row) : list Labelled :=
  dropna (label (fillna_ffill (resample_H_mean merged_data))).

End Hourly.

(** ** The news request at the head of the script *)

Module Script.

Inductive event :=
| Get (url : string)
| Print (message : string) (value : Z).

Inductive outcome (A : Type) :=
| Returned (a : A)
| Exited.
Arguments Returned {A} a.
Arguments Exited {A}.

(** A run extends the trace of events and either returns or leaves the
    interpreter. *)
Definition M (A : Type) : Type := list event -> list event * outcome A.

Definition ret {A} (a : A) : M A := fun tr => (tr, Returned a).

Definition bind {A B} (m : M A) (k : A -> M B) : M B :=
  fun tr =>
    match m tr with
    | (tr', Returned a) => k a tr'
    | (tr', Exited) => (tr', Exited)
    end.

Definition emit (e : event) : M unit := fun tr => (tr ++ [e], Returned tt).

(** [exit()] *)
Definition exit {A} : M A := fun tr => (tr, Exited).

Notation "x <- m ;; k" := (bind m (fun x => k))
  (at level 100, m at next level, right associativity).
Notation "m ;; k" := (bind m (fun _ => k))
  (at level 100, right associativity).

Definition url : string := "https://newsapi.org/v2/everything".

(** [requests.get(url, params=parameters)]; the status code is the
    server's answer. *)
Definition requests_get (status_code : Z) : M Z :=
  emit (Get url) ;; ret status_code.

(** The script: the request, the check of the status code, and the rest
    of the notebook as [pipeline]. *)
Definition main (status_code : Z) (pipeline : M unit) : M unit :=
  response <- requests_get status_code ;;
  (if negb (response =? 200)%Z
   then (emit (Print "Failed to retrieve news:" response) ;; exit)
   else ret tt) ;;
  pipeline.

Definition run {A} (m : M A) : list event * outcome A := m [].

End Script.

(** ** The specification's reading of the adjuster *)

(** [clamp lo hi x]: [x] brought back into the interval from [lo] to [hi]. *)
Definition clamp (lo hi x : Q) : Q :=
  if Qle_bool x lo then lo else if Qle_bool hi x then hi else x.

Section Counts.

Variables lm_positive lm_negative : gset string.

(** The tokens found in the positive set, and those found in the negative
    set only. *)
Definition pos_count (words : list string) : Z :=
  Z.of_nat (length (filter (fun w => w ∈ lm_positive) words)).

Definition neg_count (words : list string) : Z :=
  Z.of_nat
    (length (filter (fun w => (w ∉ lm_positive) /\ (w ∈ lm_negative)) words)).

(** The adjuster as the specification words it: the text is split on
    white space and the tokens are looked up as they are. *)
Definition adjustment_without_normalization
    (text : string) (base_score : Q) : Q :=
  let words := PyStr.split text in
  clamp (-1) 1
    (base_score + inject_Z (pos_count words - neg_count words) * (1 # 10)).

End Counts.

(** Sample data for the closed statements below. *)
Definition sample_positive : gset string := {[ "growth"; "profit" ]}.
Definition sample_negative : gset string := {[ "loss"; "default" ]}.

(** ** Predicates of the statements and sample data *)

Definition lowercase_word_char (c : ascii) : Prop :=
  PyStr.isword c = true /\ PyStr.isupper c = false.

Definition clean_token (stop_words : gset string) (word : string) : Prop :=
  word <> "" /\ (word ∉ stop_words)
  /\ Forall lowercase_word_char (PyStr.chars word).

Definition token_shape (t : string) : Prop :=
  t <> "" /\ Forall (fun c => PyStr.isspace c = false) (PyStr.chars t).

Definition sample_stop_words : gset string := {[ "the"; "is"; "a" ]}.

Definition sample_row (d : Z) (score : Q) : NewsRow :=
  {| publishedAt := d; cleaned_title := "nvidia stock";
     sentiment := score; adjusted_sentiment := score |}.

Definition sample_stock : list PricePoint :=
  [ {| Date := 1; Close := 100 |}; {| Date := 2; Close := 104 |} ].

(** Two articles, the newer one first, as a news feed lists them. *)
Definition sample_feed : list NewsRow :=
  [ sample_row 2 (5 # 10); sample_row 1 (- (3 # 10)) ].

(** The merge as the specification words it: the rows of the aggregation
    by date joined with the prices. *)
Definition merge_daily (news_df : list NewsRow)
    (stock_data : list PricePoint) : list (Z * option Q * PricePoint) :=
  daily_adjusted_sentiment news_df ≫= fun '(d, v) =>
    (fun r => (d, v, r)) <$> filter (fun r => Date r = d) stock_data.

(** Two articles of one day. *)
Definition sample_day : list NewsRow :=
  [ sample_row 1 (2 # 10); sample_row 1 (6 # 10) ].

Definition sample_merged : list MergedRow :=
  (fun c => {| news := sample_row 1 0; price := {| Date := 1; Close := c |} |})
    <$> [1; 2; 3; 4; 5; 6; 7; 8].

(** The numeric columns of eight merged rows, newest article first: one
    article of day 1 (hour 24) and seven of day 0 (hour 0). The first row
    has no lag and the rolling mean starts at the seventh row. *)
Definition sample_frame : list Hourly.Row :=
  {| Hourly.index := 24; Hourly.sentiment := Some (4 # 10);
     Hourly.adjusted_sentiment := Some (5 # 10); Hourly.Close := Some 12;
     Hourly.lagged_sentiment := None; Hourly.MA_7_day := None |}
  :: ((fun ma =>
         {| Hourly.index := 0; Hourly.sentiment := Some (1 # 10);
            Hourly.adjusted_sentiment := Some (2 # 10);
            Hourly.Close := Some 10;
            Hourly.lagged_sentiment := Some (2 # 10);
            Hourly.MA_7_day := ma |})
        <$> [None; None; None; None; None; Some 10; Some 10]).

(** Two buckets one hour apart with the closes 10 and 12. *)
Definition two_buckets : list Hourly.Row :=
  [ {| Hourly.index := 0; Hourly.sentiment := Some (1 # 10);
       Hourly.adjusted_sentiment := Some (2 # 10); Hourly.Close := Some 10;
       Hourly.lagged_sentiment := Some 0; Hourly.MA_7_day := Some 10 |};
    {| Hourly.index := 1; Hourly.sentiment := Some (4 # 10);
       Hourly.adjusted_sentiment := Some (5 # 10); Hourly.Close := Some 12;
       Hourly.lagged_sentiment := Some (2 # 10);
       Hourly.MA_7_day := Some 11 |} ].

(** ** Scoring the news table and splitting the hourly data *)

(** The two [apply] calls that add the cleaned title and the sentiment
    columns to [news_df]; an article is a title with its date. *)
Definition score_news (lm_positive lm_negative stop_words : gset string)
    (word_tokenize : string -> list string) (compound : string -> Q)
    (articles : list (string * Z)) : list NewsRow :=
  (fun a => score_article lm_positive lm_negative stop_words word_tokenize
              compound a.1 a.2) <$> articles.

(** [int(len(X_hourly) * 0.8)] *)
Definition split_index (n : nat) : nat :=
  Z.to_nat (Qfloor (inject_Z (Z.of_nat n) * (8 # 10))).

(** [iloc[:split_index]] and [iloc[split_index:]] *)
Definition train_hourly {A} (rows : list A) : list A :=
  take (split_index (length rows)) rows.

Definition test_hourly {A} (rows : list A) : list A :=
  drop (split_index (length rows)) rows.

(** Two rows two hours apart: the hour between them has no row. *)
Definition gap_frame : list Hourly.Row :=
  [ {| Hourly.index := 0; Hourly.sentiment := Some (1 # 10);
       Hourly.adjusted_sentiment := Some (2 # 10); Hourly.Close := Some 10;
       Hourly.lagged_sentiment := None; Hourly.MA_7_day := Some 10 |};
    {| Hourly.index := 2; Hourly.sentiment := Some (4 # 10);
       Hourly.adjusted_sentiment := Some (5 # 10); Hourly.Close := Some 12;
       Hourly.lagged_sentiment := Some (2 # 10);
       Hourly.MA_7_day := Some 11 |} ].

(** ** The text cleaning function on any code points *)

Module Unicode.

(** What the cleaning function uses of Python's character data, for a
    type [char] of code points: the classes [\w] and [\s] of [re] (the
    latter also the separators of [str.split()]), [str.lower()], which
    works on the whole string, and the space character. *)
Record classes (char : Type) := {
  isword : char -> bool;
  isspace : char -> bool;
  lower : list char -> list char;
  space : char
}.
Arguments isword {char} _ _.
Arguments isspace {char} _ _.
Arguments lower {char} _ _.
Arguments space {char} _.

Section Cleaner.

Context {char : Type} `{Countable char}.
Variable U : classes char.

Definition flush (word : list char) : list (list char) :=
  match word with
  | [] => []
  | _ => [word]
  end.

(** [str.split()] *)
Fixpoint split_from (word s : list char) : list (list char) :=
  match s with
  | [] => flush word
  | c :: s' =>
      if isspace U c then flush word ++ split_from [] s'
      else split_from (word ++ [c]) s'
  end.

Definition split (s : list char) : list (list char) := split_from [] s.

(** [sep.join(words)] *)
Fixpoint join (sep : list char) (words : list (list char)) : list char :=
  match words with
  | [] => []
  | [w] => w
  | w :: ws => w ++ sep ++ join sep ws
  end.

(** [re.sub(r'[^\w\s]', '', s)] *)
Fixpoint strip_punct (s : list char) : list char :=
  match s with
  | [] => []
  | c :: s' =>
      if isword U c || isspace U c then c :: strip_punct s'
      else strip_punct s'
  end.

Definition clean_text (stop_words : gset (list char))
    (word_tokenize : list char -> list (list char)) (text : list char)
    : list char :=
  let text := lower U text in
  let text := strip_punct text in
  join [space U]
    (filter (fun word => word ∉ stop_words) (word_tokenize text)).

(** The two facts used of the character data: the space is white space
    and the empty string is its own lower case. *)
Record classes_ok : Prop := {
  space_isspace : isspace U (space U) = true;
  lower_empty : lower U [] = []
}.

(** The contract of the tokenizer, as for [tokenizer_contract]. *)
Record tokenizer_ok (word_tokenize : list char -> list (list char))
    : Prop := {
  tokens_of_empty : word_tokenize [] = [];
  tokens_of_text : forall text word,
    Forall (fun c => isword U c || isspace U c = true) text ->
    word ∈ word_tokenize text ->
    word <> [] /\ Forall (fun c => c ∈ text /\ isspace U c = false) word
}.

(** A token of the cleaned text. *)
Definition clean_token (stop_words : gset (list char)) (text : list char)
    (word : list char) : Prop :=
  word <> [] /\ (word ∉ stop_words)
  /\ Forall (fun c => isword U c = true /\ isspace U c = false
                      /\ c ∈ lower U text) word.

End Cleaner.

End Unicode.

(** The code points 0 to 255 with the classes of [PyStr]. *)
Definition latin1 : Unicode.classes ascii :=
  {| Unicode.isword := PyStr.isword;
     Unicode.isspace := PyStr.isspace;
     Unicode.lower := fmap PyStr.lower_char;
     Unicode.space := " "%char |}.

(** * Properties *)

(** ** Strings *)

Lemma lower_char_idem c : PyStr.lower_char (PyStr.lower_char c) = PyStr.lower_char c.
Proof. destruct c as [[] [] [] [] [] [] [] []]; reflexivity. Qed.

Lemma lower_char_not_upper c : PyStr.isupper (PyStr.lower_char c) = false.
Proof. destruct c as [[] [] [] [] [] [] [] []]; reflexivity. Qed.

Lemma lower_idem s : PyStr.lower (PyStr.lower s) = PyStr.lower s.
Proof.
  induction s as [|c s IH]; simpl; [reflexivity|].
  now rewrite lower_char_idem, IH.
Qed.

(** ** The financial sentiment adjustment *)

Lemma fold_count_word (lm_positive lm_negative : gset string) words p n :
  fold_left (count_word lm_positive lm_negative) words (p, n)
  = ((p + pos_count lm_positive words)%Z,
     (n + neg_count lm_positive lm_negative words)%Z).
Proof.
  revert p n. induction words as [|w ws IH]; intros p n.
  - unfold pos_count, neg_count. simpl. f_equal; lia.
  - simpl. unfold pos_count, neg_count in *.
    rewrite !filter_cons.
    destruct (decide (w ∈ lm_positive)) as [Hp|Hp].
    + rewrite bool_decide_eq_true_2 by done. rewrite IH.
      rewrite decide_False by tauto. simpl. f_equal; lia.
    + rewrite bool_decide_eq_false_2 by done.
      destruct (decide (w ∈ lm_negative)) as [Hn|Hn].
      * rewrite bool_decide_eq_true_2 by done. rewrite IH.
        rewrite decide_True by tauto. simpl. f_equal; lia.
      * rewrite bool_decide_eq_false_2 by done. rewrite IH.
        rewrite decide_False by tauto. f_equal.
Qed.

Lemma lexicon_scores_counts (lm_positive lm_negative : gset string) words :
  lexicon_scores lm_positive lm_negative words
  = (pos_count lm_positive words, neg_count lm_positive lm_negative words).
Proof. unfold lexicon_scores. now rewrite fold_count_word. Qed.

Lemma py_clamp x : py_max (-1) (py_min 1 x) = clamp (-1) 1 x.
Proof.
  unfold py_max, py_min, clamp.
  destruct (Qle_bool 1 x) eqn:H1.
  - destruct (Qle_bool x (-1)) eqn:H2.
    + apply Qle_bool_iff in H1, H2. lra.
    + reflexivity.
  - destruct (Qle_bool x (-1)) eqn:H2; reflexivity.
Qed.

Lemma clamp_bounds x : -1 <= clamp (-1) 1 x <= 1.
Proof.
  unfold clamp.
  destruct (Qle_bool x (-1)) eqn:H1; [lra|].
  destruct (Qle_bool 1 x) eqn:H2; [lra|].
  assert (~ x <= -1) by (rewrite <- Qle_bool_iff; congruence).
  assert (~ 1 <= x) by (rewrite <- Qle_bool_iff; congruence).
  lra.
Qed.

Lemma clamp_inside x : -1 <= x <= 1 -> clamp (-1) 1 x == x.
Proof.
  intros [Hlo Hhi]. unfold clamp.
  destruct (Qle_bool x (-1)) eqn:H1.
  - apply Qle_bool_iff in H1. lra.
  - destruct (Qle_bool 1 x) eqn:H2; [|reflexivity].
    apply Qle_bool_iff in H2. lra.
Qed.

Lemma adjust_unfold (lm_positive lm_negative : gset string) text base :
  financial_sentiment_adjustment lm_positive lm_negative text base
  = clamp (-1) 1
      (base
       + inject_Z (pos_count lm_positive (PyStr.split (PyStr.lower text))
                   - neg_count lm_positive lm_negative
                       (PyStr.split (PyStr.lower text)))
         * (1 # 10)).
Proof.
  unfold financial_sentiment_adjustment.
  rewrite lexicon_scores_counts. apply py_clamp.
Qed.

(** C1, as amended: for every text and every base score the adjuster
    returns the clamp to [-1, 1] of
    [base_score + (pos_count - neg_count) * 0.1], where the counts are
    taken over the tokens of the LOWER-CASED text split on white space, a
    token of both sets counting as positive only. With base score 0 and two
    positive, no negative hits the result is 0.2; with no hit at all a
    base score of [-1, 1] comes back unchanged. *)
Theorem adjustment_formula (lm_positive lm_negative : gset string)
    (text : string) (base_score : Q) :
  let words := PyStr.split (PyStr.lower text) in
  let pos := pos_count lm_positive words in
  let neg := neg_count lm_positive lm_negative words in
  financial_sentiment_adjustment lm_positive lm_negative text base_score
  = clamp (-1) 1 (base_score + inject_Z (pos - neg) * (1 # 10))
  /\ (pos = 2%Z -> neg = 0%Z ->
      financial_sentiment_adjustment lm_positive lm_negative text 0
      == 2 # 10)
  /\ (pos = 0%Z -> neg = 0%Z -> -1 <= base_score <= 1 ->
      financial_sentiment_adjustment lm_positive lm_negative text base_score
      == base_score).
Proof.
  intros words pos neg. split; [apply adjust_unfold|]. split.
  - intros Hp Hn. rewrite adjust_unfold. fold words. fold pos. fold neg.
    rewrite Hp, Hn. reflexivity.
  - intros Hp Hn Hb. rewrite adjust_unfold. fold words. fold pos. fold neg.
    rewrite Hp, Hn.
    assert (E : base_score + inject_Z (0 - 0) * (1 # 10) == base_score)
      by (change (inject_Z (0 - 0)) with 0; ring).
    rewrite clamp_inside; [exact E|]. rewrite E. exact Hb.
Qed.

Lemma adjustment_formula_witness :
  financial_sentiment_adjustment sample_positive sample_negative
    "growth beats profit" 0 == 2 # 10
  /\ financial_sentiment_adjustment sample_positive sample_negative
       "nothing here" (1 # 2) == 1 # 2.
Proof.
  split.
  - apply (adjustment_formula sample_positive sample_negative
             "growth beats profit" 0); vm_compute; reflexivity.
  - apply (adjustment_formula sample_positive sample_negative
             "nothing here" (1 # 2)); vm_compute; try reflexivity.
    split; discriminate.
Defined.

(** C1, as stated, fails: the function lower-cases the text before it
    splits it, so an upper-case token is found in the lexicon, which a
    lookup of the token as it is would miss; and a base score outside
    [-1, 1] does not come back unchanged from a text without hits. *)
Lemma adjustment_normalizes_case :
  financial_sentiment_adjustment sample_positive sample_negative "GROWTH" 0
  == 1 # 10
  /\ adjustment_without_normalization sample_positive sample_negative
       "GROWTH" 0 == 0
  /\ ~ financial_sentiment_adjustment sample_positive sample_negative
         "GROWTH" 0
       == adjustment_without_normalization sample_positive sample_negative
            "GROWTH" 0
  /\ ~ financial_sentiment_adjustment sample_positive sample_negative
         "nothing here" 2 == 2.
Proof. vm_compute. repeat split; congruence. Qed.

(** C2: for a base score of [-1, 1] (and in fact for any base score) and
    every text the adjusted score lies in [-1, 1]; a base score of 0.9 with
    no positive and three negative hits gives 0.6. *)
Theorem adjustment_range (lm_positive lm_negative : gset string)
    (text : string) (base_score : Q) :
  (-1 <= base_score <= 1 ->
   -1 <= financial_sentiment_adjustment lm_positive lm_negative
           text base_score <= 1)
  /\ (pos_count lm_positive (PyStr.split (PyStr.lower text)) = 0%Z ->
      neg_count lm_positive lm_negative (PyStr.split (PyStr.lower text))
      = 3%Z ->
      financial_sentiment_adjustment lm_positive lm_negative text (9 # 10)
      == 6 # 10).
Proof.
  split.
  - intros _. rewrite adjust_unfold. apply clamp_bounds.
  - intros Hp Hn. rewrite adjust_unfold, Hp, Hn. reflexivity.
Qed.

Lemma adjustment_range_witness :
  (-1 <= financial_sentiment_adjustment sample_positive sample_negative
           "loss after loss and default" (9 # 10) <= 1)
  /\ financial_sentiment_adjustment sample_positive sample_negative
       "loss after loss and default" (9 # 10) == 6 # 10.
Proof.
  split.
  - apply (adjustment_range sample_positive sample_negative
             "loss after loss and default" (9 # 10)).
    split; discriminate.
  - apply (adjustment_range sample_positive sample_negative
             "loss after loss and default" (9 # 10)); vm_compute; reflexivity.
Defined.

(** The adjusted sentiment of a scored article lies in [-1, 1]. *)
Corollary score_article_range lm_positive lm_negative stop_words
    word_tokenize compound title published :
  -1 <= adjusted_sentiment
          (score_article lm_positive lm_negative stop_words word_tokenize
             compound title published) <= 1.
Proof. simpl. rewrite adjust_unfold. apply clamp_bounds. Qed.

(** C10: the adjuster does not see the case of its text: the lower-cased
    text gives the same score. *)
Theorem adjustment_case_insensitive (lm_positive lm_negative : gset string)
    (text : string) (sentiment_score : Q) :
  financial_sentiment_adjustment lm_positive lm_negative text sentiment_score
  = financial_sentiment_adjustment lm_positive lm_negative
      (PyStr.lower text) sentiment_score.
Proof.
  unfold financial_sentiment_adjustment. now rewrite lower_idem.
Qed.

(** ** The text cleaning function *)

Lemma append_cons c a b : String c a +:+ b = String c (a +:+ b).
Proof. reflexivity. Qed.

Lemma chars_app a b : PyStr.chars (a +:+ b) = PyStr.chars a ++ PyStr.chars b.
Proof.
  induction a as [|c a IH]; [reflexivity|].
  rewrite append_cons. simpl. now rewrite IH.
Qed.

Lemma append_empty_r a : a +:+ "" = a.
Proof.
  induction a as [|c a IH]; [reflexivity|]. now rewrite append_cons, IH.
Qed.

Lemma append_assoc a b c : (a +:+ b) +:+ c = a +:+ (b +:+ c).
Proof.
  induction a as [|x a IH]; [reflexivity|]. now rewrite !append_cons, IH.
Qed.

Lemma flush_nonempty w : w <> "" -> PyStr.flush w = [w].
Proof. destruct w; [congruence|reflexivity]. Qed.

Lemma flush_elem w t : t ∈ PyStr.flush w -> t = w /\ w <> "".
Proof.
  destruct w; simpl; intros H.
  - inversion H.
  - apply list_elem_of_singleton in H. now subst.
Qed.

(** Tokens of [split]: non-empty, made of characters of the text, none
    of them a space. *)
Lemma split_from_tokens s : forall w t,
  Forall (fun c => PyStr.isspace c = false) (PyStr.chars w) ->
  t ∈ PyStr.split_from w s ->
  t <> "" /\
  Forall (fun c => c ∈ PyStr.chars w ++ PyStr.chars s
                   /\ PyStr.isspace c = false) (PyStr.chars t).
Proof.
  induction s as [|c s IH]; intros w t Hw Ht; simpl in Ht.
  - apply flush_elem in Ht as [-> Hne]. split; [assumption|].
    simpl. rewrite app_nil_r. apply Forall_forall. intros x Hx.
    split; [assumption|]. now apply (proj1 (Forall_forall _ _) Hw).
  - destruct (PyStr.isspace c) eqn:Hc.
    + apply elem_of_app in Ht as [Ht|Ht].
      * apply flush_elem in Ht as [-> Hne]. split; [assumption|].
        apply Forall_forall. intros x Hx. split.
        -- apply elem_of_app. now left.
        -- now apply (proj1 (Forall_forall _ _) Hw).
      * destruct (IH "" t (Forall_nil_2 _) Ht) as [Hne Hall].
        split; [assumption|]. eapply Forall_impl; [exact Hall|].
        simpl. intros x [Hx Hsp]. split; [|assumption].
        apply elem_of_app. right. now right.
    + assert (Hw' : Forall (fun c => PyStr.isspace c = false)
                      (PyStr.chars (w +:+ String c ""))).
      { rewrite chars_app. apply Forall_app. split; [assumption|].
        simpl. now repeat constructor. }
      destruct (IH _ t Hw' Ht) as [Hne Hall].
      split; [assumption|]. eapply Forall_impl; [exact Hall|].
      simpl. intros x [Hx Hsp]. split; [|assumption].
      rewrite chars_app in Hx. simpl in Hx.
      rewrite <- app_assoc in Hx. exact Hx.
Qed.

(** The split on white space meets the contract asked of the tokenizer. *)
Lemma split_contract : tokenizer_contract PyStr.split.
Proof.
  split; [reflexivity|]. intros text word _ Hin.
  apply (split_from_tokens text "" word (Forall_nil_2 _) Hin).
Qed.

Lemma split_from_run t : forall w s,
  Forall (fun c => PyStr.isspace c = false) (PyStr.chars t) ->
  PyStr.split_from w (t +:+ s) = PyStr.split_from (w +:+ t) s.
Proof.
  induction t as [|c t IH]; intros w s Ht; simpl.
  - now rewrite append_empty_r.
  - inversion Ht as [|? ? Hc Ht']; subst. rewrite Hc.
    rewrite IH by assumption. now rewrite append_assoc.
Qed.

(** Splitting a single-space join of tokens gives the tokens back. *)
Lemma split_join toks :
  Forall token_shape toks -> PyStr.split (PyStr.join " " toks) = toks.
Proof.
  unfold PyStr.split. induction toks as [|t ts IH]; intros H.
  - reflexivity.
  - inversion H as [|? ? [Hne Ht] Hts]; subst.
    destruct ts as [|t' ts'].
    + simpl. rewrite <- (append_empty_r t) at 1.
      rewrite split_from_run by assumption. simpl.
      now apply flush_nonempty.
    + change (PyStr.join " " (t :: t' :: ts'))
        with (t +:+ String " " (PyStr.join " " (t' :: ts'))).
      rewrite split_from_run by assumption. simpl PyStr.split_from at 1.
      change (PyStr.isspace " ") with true. cbv iota.
      rewrite flush_nonempty by assumption. simpl. f_equal.
      now apply IH.
Qed.

Lemma strip_punct_chars s :
  Forall (fun c => PyStr.isword c || PyStr.isspace c = true)
         (PyStr.chars (PyStr.strip_punct s)).
Proof.
  induction s as [|c s IH]; simpl; [constructor|].
  destruct (PyStr.isword c || PyStr.isspace c) eqn:E; simpl; auto.
Qed.

Lemma strip_punct_sub s c :
  c ∈ PyStr.chars (PyStr.strip_punct s) -> c ∈ PyStr.chars s.
Proof.
  induction s as [|x s IH]; simpl; [trivial|].
  destruct (PyStr.isword x || PyStr.isspace x); simpl; intros H.
  - apply elem_of_cons in H as [->|H]; [left|right; auto].
  - right; auto.
Qed.

Lemma lower_chars_not_upper s c :
  c ∈ PyStr.chars (PyStr.lower s) -> PyStr.isupper c = false.
Proof.
  induction s as [|x s IH]; simpl; intros H.
  - inversion H.
  - apply elem_of_cons in H as [->|H]; [apply lower_char_not_upper|auto].
Qed.

(** The tokens that [clean_text] joins. *)
Lemma clean_tokens stop_words word_tokenize text :
  tokenizer_contract word_tokenize ->
  Forall (fun w => token_shape w /\ clean_token stop_words w)
    (filter (fun word => word ∉ stop_words)
       (word_tokenize (PyStr.strip_punct (PyStr.lower text)))).
Proof.
  intros [_ Htok]. apply Forall_forall. intros w Hw.
  apply list_elem_of_filter in Hw as [Hstop Hw].
  destruct (Htok _ _ (strip_punct_chars _) Hw) as [Hne Hall].
  split; split; try assumption.
  - eapply Forall_impl; [exact Hall|]. now intros c [_ Hc].
  - split; [assumption|].
    eapply Forall_impl; [exact Hall|]. simpl. intros c [Hin Hsp].
    split.
    + pose proof (proj1 (Forall_forall _ _) (strip_punct_chars _) c Hin)
        as Hc. simpl in Hc. rewrite Hsp, orb_false_r in Hc. exact Hc.
    + apply (lower_chars_not_upper text). now apply strip_punct_sub.
Qed.

Lemma join_chars toks c :
  c ∈ PyStr.chars (PyStr.join " " toks) ->
  c = " "%char \/ exists t, t ∈ toks /\ c ∈ PyStr.chars t.
Proof.
  induction toks as [|t ts IH]; simpl; intros H.
  - inversion H.
  - destruct ts as [|t' ts'].
    + right. exists t. split; [left|assumption].
    + rewrite chars_app in H. apply elem_of_app in H as [H|H].
      * right. exists t. split; [left|assumption].
      * simpl in H. apply elem_of_cons in H as [->|H]; [now left|].
        destruct (IH H) as [->|(u & Hu & Hc)]; [now left|].
        right. exists u. split; [now right|assumption].
Qed.

(** On the code points 0 to 255 the cleaned text is a sequence of
    non-empty tokens joined by single spaces; every token is made of word
    characters that are not upper-case, and none is a stop-word; so every
    character of the output is a space or such a character. The empty
    input gives the empty output. *)
Theorem clean_text_normal_form (stop_words : gset string)
    (word_tokenize : string -> list string) (text : string) :
  tokenizer_contract word_tokenize ->
  let out := clean_text stop_words word_tokenize text in
  out = PyStr.join " " (PyStr.split out)
  /\ Forall (clean_token stop_words) (PyStr.split out)
  /\ Forall (fun c => c = " "%char \/ lowercase_word_char c) (PyStr.chars out)
  /\ clean_text stop_words word_tokenize "" = "".
Proof.
  intros Hc out.
  pose proof (clean_tokens stop_words word_tokenize text Hc) as Htoks.
  set (toks := filter (fun word => word ∉ stop_words)
                 (word_tokenize (PyStr.strip_punct (PyStr.lower text))))
    in Htoks.
  assert (Hout : out = PyStr.join " " toks) by reflexivity.
  assert (Hsplit : PyStr.split out = toks).
  { rewrite Hout. apply split_join.
    eapply Forall_impl; [exact Htoks|]. now intros w [Hw _]. }
  assert (Hclean : Forall (clean_token stop_words) toks).
  { eapply Forall_impl; [exact Htoks|]. now intros w [_ Hw]. }
  repeat split.
  - now rewrite Hsplit.
  - now rewrite Hsplit.
  - apply Forall_forall. intros c Hin. rewrite Hout in Hin.
    destruct (join_chars _ _ Hin) as [->|(t & Ht & Hct)]; [now left|].
    right. pose proof (proj1 (Forall_forall _ _) Hclean t Ht) as (_ & _ & Hall).
    now apply (proj1 (Forall_forall _ _) Hall).
  - unfold clean_text. simpl. destruct Hc as [-> _]. reflexivity.
Qed.

Lemma clean_text_normal_form_witness :
  let out := clean_text sample_stop_words PyStr.split
               "The Market is UP, a 5% gain!" in
  out = PyStr.join " " (PyStr.split out)
  /\ Forall (clean_token sample_stop_words) (PyStr.split out)
  /\ Forall (fun c => c = " "%char \/ lowercase_word_char c) (PyStr.chars out)
  /\ clean_text sample_stop_words PyStr.split "" = "".
Proof.
  exact (clean_text_normal_form sample_stop_words PyStr.split
           "The Market is UP, a 5% gain!" split_contract).
Defined.

(** C6, as stated, fails: the pattern [\w] keeps the underscore, which is
    not alphanumeric. *)
Lemma clean_text_keeps_underscore :
  clean_text sample_stop_words PyStr.split "NVDA_Q4 beats" = "nvda_q4 beats"
  /\ "_"%char ∈ PyStr.chars (clean_text sample_stop_words PyStr.split
                               "NVDA_Q4 beats")
  /\ PyStr.isalnum "_" = false
  /\ Unicode.clean_text latin1 ∅ (Unicode.split latin1)
       (PyStr.chars "NVDA_Q4 beats")
     = PyStr.chars "nvda_q4 beats".
Proof.
  vm_compute. repeat split. right. right. right. right. left.
Qed.

(** *** The same on any code points *)

Lemma uflush_elem {char} (w t : list char) :
  t ∈ Unicode.flush w -> t = w /\ w <> [].
Proof.
  destruct w; simpl; intros Hin.
  - inversion Hin.
  - apply list_elem_of_singleton in Hin. now subst.
Qed.

Lemma usplit_from_tokens {char} (U : Unicode.classes char) s : forall w t,
  Forall (fun c => Unicode.isspace U c = false) w ->
  t ∈ Unicode.split_from U w s ->
  t <> [] /\
  Forall (fun c => c ∈ w ++ s /\ Unicode.isspace U c = false) t.
Proof.
  induction s as [|c s IH]; intros w t Hw Ht; simpl in Ht.
  - apply uflush_elem in Ht as [-> Hne]. split; [assumption|].
    rewrite app_nil_r. apply Forall_forall. intros x Hx.
    split; [assumption|]. now apply (proj1 (Forall_forall _ _) Hw).
  - destruct (Unicode.isspace U c) eqn:Hc.
    + apply elem_of_app in Ht as [Ht|Ht].
      * apply uflush_elem in Ht as [-> Hne]. split; [assumption|].
        apply Forall_forall. intros x Hx. split.
        -- apply elem_of_app. now left.
        -- now apply (proj1 (Forall_forall _ _) Hw).
      * destruct (IH [] t (Forall_nil_2 _) Ht) as [Hne Hall].
        split; [assumption|]. eapply Forall_impl; [exact Hall|].
        simpl. intros x [Hx Hsp]. split; [|assumption].
        apply elem_of_app. right. now right.
    + assert (Hw' : Forall (fun c => Unicode.isspace U c = false) (w ++ [c]))
        by (apply Forall_app; split; [assumption|now repeat constructor]).
      destruct (IH _ t Hw' Ht) as [Hne Hall].
      split; [assumption|]. eapply Forall_impl; [exact Hall|].
      simpl. intros x [Hx Hsp]. split; [|assumption].
      now rewrite <- app_assoc in Hx.
Qed.

(** The split on white space meets the contract, on any code points. *)
Lemma usplit_tokenizer_ok {char} (U : Unicode.classes char) :
  Unicode.tokenizer_ok U (Unicode.split U).
Proof.
  split; [reflexivity|]. intros text word _ Hin.
  apply (usplit_from_tokens U text [] word (Forall_nil_2 _) Hin).
Qed.

Lemma usplit_from_run {char} (U : Unicode.classes char) t : forall w s,
  Forall (fun c => Unicode.isspace U c = false) t ->
  Unicode.split_from U w (t ++ s) = Unicode.split_from U (w ++ t) s.
Proof.
  induction t as [|c t IH]; intros w s Ht; simpl.
  - now rewrite app_nil_r.
  - inversion Ht as [|? ? Hc Ht']; subst. rewrite Hc.
    rewrite IH by assumption. now rewrite <- app_assoc.
Qed.

Lemma usplit_join {char} (U : Unicode.classes char) toks :
  Unicode.isspace U (Unicode.space U) = true ->
  Forall (fun t => t <> []
                   /\ Forall (fun c => Unicode.isspace U c = false) t) toks ->
  Unicode.split U (Unicode.join [Unicode.space U] toks) = toks.
Proof.
  intros Hsp. unfold Unicode.split.
  induction toks as [|t ts IH]; intros Hall; [reflexivity|].
  inversion Hall as [|? ? [Hne Ht] Hts]; subst.
  destruct ts as [|t' ts'].
  - simpl. rewrite <- (app_nil_r t) at 1.
    rewrite usplit_from_run by assumption. simpl.
    destruct t; [congruence|reflexivity].
  - change (Unicode.join [Unicode.space U] (t :: t' :: ts'))
      with (t ++ Unicode.space U
              :: Unicode.join [Unicode.space U] (t' :: ts')).
    rewrite usplit_from_run by assumption. simpl Unicode.split_from at 1.
    rewrite Hsp. destruct t as [|c t]; [congruence|].
    simpl. f_equal. now apply IH.
Qed.

Lemma ujoin_chars {char} (sp : char) toks c :
  c ∈ Unicode.join [sp] toks -> c = sp \/ exists t, t ∈ toks /\ c ∈ t.
Proof.
  induction toks as [|t ts IH]; simpl; intros Hin.
  - inversion Hin.
  - destruct ts as [|t' ts'].
    + right. exists t. split; [left|assumption].
    + apply elem_of_app in Hin as [Hin|Hin].
      * right. exists t. split; [left|assumption].
      * simpl in Hin. apply elem_of_cons in Hin as [->|Hin]; [now left|].
        destruct (IH Hin) as [->|(u & Hu & Hc)]; [now left|].
        right. exists u. split; [now right|assumption].
Qed.

Lemma ustrip_punct_chars {char} (U : Unicode.classes char) s :
  Forall (fun c => Unicode.isword U c || Unicode.isspace U c = true)
         (Unicode.strip_punct U s).
Proof.
  induction s as [|c s IH]; simpl; [constructor|].
  destruct (Unicode.isword U c || Unicode.isspace U c) eqn:E; auto.
Qed.

Lemma ustrip_punct_sub {char} (U : Unicode.classes char) s c :
  c ∈ Unicode.strip_punct U s -> c ∈ s.
Proof.
  induction s as [|x s IH]; simpl; [trivial|].
  destruct (Unicode.isword U x || Unicode.isspace U x); intros Hin.
  - apply elem_of_cons in Hin as [->|Hin]; [left|right; auto].
  - right; auto.
Qed.

Lemma uclean_tokens {char} `{Countable char} (U : Unicode.classes char)
    stop_words word_tokenize text :
  Unicode.tokenizer_ok U word_tokenize ->
  Forall (Unicode.clean_token U stop_words text)
    (filter (fun word => word ∉ stop_words)
       (word_tokenize (Unicode.strip_punct U (Unicode.lower U text)))).
Proof.
  intros [_ Htok]. apply Forall_forall. intros w Hw.
  apply list_elem_of_filter in Hw as [Hstop Hw].
  destruct (Htok _ _ (ustrip_punct_chars U _) Hw) as [Hne Hall].
  split; [assumption|]. split; [assumption|].
  eapply Forall_impl; [exact Hall|]. simpl. intros c [Hin Hsp].
  pose proof (proj1 (Forall_forall _ _) (ustrip_punct_chars U _) c Hin)
    as Hc. simpl in Hc. rewrite Hsp, orb_false_r in Hc.
  split; [exact Hc|]. split; [exact Hsp|].
  now apply (ustrip_punct_sub U).
Qed.

(** C6, as amended: for every input string, on whatever code points, the
    cleaned text is a sequence of non-empty tokens joined by single spaces
    (no leading, trailing or doubled space); every character of a token is
    a word character (class [\w]: alphanumeric or the underscore), is not
    white space and occurs in the lower-cased input [text.lower()]; no
    token is a stop-word; so every character of the output is a space or
    such a character. The empty input gives the empty output. *)
Theorem clean_text_output {char : Type} `{Countable char}
    (U : Unicode.classes char) (stop_words : gset (list char))
    (word_tokenize : list char -> list (list char)) (text : list char) :
  Unicode.classes_ok U ->
  Unicode.tokenizer_ok U word_tokenize ->
  let out := Unicode.clean_text U stop_words word_tokenize text in
  out = Unicode.join [Unicode.space U] (Unicode.split U out)
  /\ Forall (Unicode.clean_token U stop_words text) (Unicode.split U out)
  /\ Forall (fun c => c = Unicode.space U
                      \/ (Unicode.isword U c = true
                          /\ c ∈ Unicode.lower U text)) out
  /\ Unicode.clean_text U stop_words word_tokenize [] = [].
Proof.
  intros [Hsp Hlow] Htok out.
  pose proof (uclean_tokens U stop_words word_tokenize text Htok) as Htoks.
  set (toks := filter (fun word => word ∉ stop_words)
                 (word_tokenize
                    (Unicode.strip_punct U (Unicode.lower U text))))
    in Htoks.
  assert (Hout : out = Unicode.join [Unicode.space U] toks) by reflexivity.
  assert (Hsplit : Unicode.split U out = toks).
  { rewrite Hout. apply usplit_join; [assumption|].
    eapply Forall_impl; [exact Htoks|]. simpl. intros w (Hne & _ & Hall).
    split; [assumption|]. eapply Forall_impl; [exact Hall|].
    now intros c (_ & Hc & _). }
  repeat split.
  - now rewrite Hsplit.
  - now rewrite Hsplit.
  - apply Forall_forall. intros c Hin. rewrite Hout in Hin.
    destruct (ujoin_chars _ _ _ Hin) as [->|(t & Ht & Hct)]; [now left|].
    right.
    pose proof (proj1 (Forall_forall _ _) Htoks t Ht) as (_ & _ & Hall).
    destruct (proj1 (Forall_forall _ _) Hall c Hct) as (Hw & _ & Hl).
    split; assumption.
  - unfold Unicode.clean_text. rewrite Hlow. simpl.
    destruct Htok as [-> _]. reflexivity.
Qed.

Lemma latin1_ok : Unicode.classes_ok latin1.
Proof. split; reflexivity. Qed.

Lemma clean_text_output_witness :
  let out := Unicode.clean_text latin1 {[ PyStr.chars "the" ]}
               (Unicode.split latin1)
               (PyStr.chars "The NVDA_Q4 rally, up 5%!") in
  out = Unicode.join [" "%char] (Unicode.split latin1 out)
  /\ Forall (Unicode.clean_token latin1 {[ PyStr.chars "the" ]}
               (PyStr.chars "The NVDA_Q4 rally, up 5%!"))
            (Unicode.split latin1 out)
  /\ Forall (fun c => c = " "%char
                      \/ (PyStr.isword c = true
                          /\ c ∈ PyStr.lower_char
                                   <$> PyStr.chars "The NVDA_Q4 rally, up 5%!"))
            out
  /\ Unicode.clean_text latin1 {[ PyStr.chars "the" ]}
       (Unicode.split latin1) [] = [].
Proof.
  exact (clean_text_output latin1 {[ PyStr.chars "the" ]}
           (Unicode.split latin1) (PyStr.chars "The NVDA_Q4 rally, up 5%!")
           latin1_ok (usplit_tokenizer_ok latin1)).
Defined.

(** ** Aggregation by date *)

Lemma elem_of_insert_key x k keys :
  x ∈ insert_key k keys <-> x = k \/ x ∈ keys.
Proof.
  induction keys as [|k' keys IH]; simpl.
  - rewrite list_elem_of_singleton. split; [auto|]. intros [H|H]; [done|].
    inversion H.
  - destruct (Z.ltb_spec k k').
    + rewrite elem_of_cons. tauto.
    + destruct (Z.eqb_spec k k') as [->|Hne].
      * rewrite elem_of_cons. tauto.
      * rewrite !elem_of_cons, IH. tauto.
Qed.

Lemma insert_key_sorted k keys :
  StronglySorted Z.lt keys -> StronglySorted Z.lt (insert_key k keys).
Proof.
  induction 1 as [|k' keys Hs IH Hall]; simpl.
  - repeat constructor.
  - destruct (Z.ltb_spec k k').
    + constructor; [now constructor|]. constructor; [assumption|].
      eapply Forall_impl; [exact Hall|]. simpl. lia.
    + destruct (Z.eqb_spec k k') as [->|Hne].
      * now constructor.
      * constructor; [assumption|]. apply Forall_forall. intros y Hy.
        apply elem_of_insert_key in Hy as [->|Hy]; [lia|].
        now apply (proj1 (Forall_forall _ _) Hall).
Qed.

Lemma insert_key_same k keys : insert_key k (k :: keys) = k :: keys.
Proof. simpl. now rewrite Z.ltb_irrefl, Z.eqb_refl. Qed.

Lemma elem_of_group_keys x keys : x ∈ group_keys keys <-> x ∈ keys.
Proof.
  unfold group_keys. induction keys as [|k keys IH]; simpl; [tauto|].
  rewrite elem_of_insert_key, elem_of_cons, IH. tauto.
Qed.

Lemma group_keys_sorted keys : StronglySorted Z.lt (group_keys keys).
Proof.
  unfold group_keys. induction keys as [|k keys IH]; simpl.
  - constructor.
  - now apply insert_key_sorted.
Qed.

Lemma mean_nonempty xs :
  xs <> [] -> mean xs = Some (Qsum xs / inject_Z (Z.of_nat (length xs))).
Proof. destruct xs; [congruence|reflexivity]. Qed.

Lemma on_date_nonempty d news_df :
  d ∈ publishedAt <$> news_df -> adjusted_sentiment <$> on_date d news_df <> [].
Proof.
  intros Hd. apply list_elem_of_fmap in Hd as (r & -> & Hr).
  assert (Hin : r ∈ on_date (publishedAt r) news_df)
    by (apply list_elem_of_filter; auto).
  intros Hnil. apply fmap_nil_inv in Hnil. rewrite Hnil in Hin. inversion Hin.
Qed.

Lemma daily_dates news_df :
  (daily_adjusted_sentiment news_df).*1 = group_keys (publishedAt <$> news_df).
Proof.
  unfold daily_adjusted_sentiment. rewrite <- list_fmap_compose.
  apply list_fmap_id.
Qed.

(** C8: the aggregation has one row per date of the article set and no
    other row, the rows come in ascending date order (so no date twice),
    and the value of a row is the arithmetic mean of the adjusted sentiment
    of the articles of that date; three articles of one date with 0.2,
    -0.4 and 0.6 give 0.1333... = 2/15. *)
Theorem daily_mean_by_date (news_df : list NewsRow) :
  let daily := daily_adjusted_sentiment news_df in
  (forall d, d ∈ daily.*1 <-> d ∈ publishedAt <$> news_df)
  /\ StronglySorted Z.lt (daily.*1)
  /\ (forall d v, (d, v) ∈ daily ->
        let scores := adjusted_sentiment <$> on_date d news_df in
        scores <> []
        /\ v = Some (Qsum scores / inject_Z (Z.of_nat (length scores))))
  /\ (forall d t1 t2 t3 s1 s2 s3,
        exists v,
          daily_adjusted_sentiment
            [ {| publishedAt := d; cleaned_title := t1; sentiment := s1;
                 adjusted_sentiment := 2 # 10 |};
              {| publishedAt := d; cleaned_title := t2; sentiment := s2;
                 adjusted_sentiment := - (4 # 10) |};
              {| publishedAt := d; cleaned_title := t3; sentiment := s3;
                 adjusted_sentiment := 6 # 10 |} ]
          = [(d, Some v)] /\ v == 2 # 15).
Proof.
  intros daily. repeat split.
  - subst daily. rewrite daily_dates. apply elem_of_group_keys.
  - subst daily. rewrite daily_dates. apply elem_of_group_keys.
  - subst daily. rewrite daily_dates. apply group_keys_sorted.
  - apply on_date_nonempty.
    apply list_elem_of_fmap in H as (d' & [= -> ->] & Hd').
    now rewrite elem_of_group_keys in Hd'.
  - apply list_elem_of_fmap in H as (d' & [= -> ->] & Hd').
    apply mean_nonempty, on_date_nonempty.
    now rewrite elem_of_group_keys in Hd'.
  - intros d t1 t2 t3 s1 s2 s3. eexists. split.
    + unfold daily_adjusted_sentiment.
      change (group_keys (publishedAt <$> _))
        with (insert_key d (insert_key d [d])).
      rewrite !insert_key_same. unfold on_date.
      rewrite list_fmap_singleton.
      rewrite !filter_cons, filter_nil. simpl.
      rewrite !decide_True by reflexivity. reflexivity.
    + reflexivity.
Qed.

Lemma daily_mean_by_date_witness :
  let scores :=
    adjusted_sentiment
      <$> on_date 3 [sample_row 3 (2 # 10); sample_row 1 (5 # 10);
                     sample_row 3 (6 # 10)] in
  scores <> []
  /\ Some (((2 # 10) + ((6 # 10) + 0)) / inject_Z 2)
     = Some (Qsum scores / inject_Z (Z.of_nat (length scores))).
Proof.
  apply (daily_mean_by_date
           [sample_row 3 (2 # 10); sample_row 1 (5 # 10);
            sample_row 3 (6 # 10)]).
  vm_compute. right. left.
Defined.

(** ** Column operations *)

Lemma length_shift {A} periods (col : list (option A)) :
  length (shift periods col) = length col.
Proof.
  unfold shift. destruct (0 <=? periods)%Z.
  - rewrite length_take, length_app, length_replicate. lia.
  - rewrite length_app, length_drop, length_replicate. lia.
Qed.

Lemma shift_down_first {A} (col : list (option A)) :
  col <> [] -> shift 1 col !! 0%nat = Some None.
Proof. destruct col; [congruence|reflexivity]. Qed.

Lemma shift_down_next {A} (col : list (option A)) t :
  (S t < length col)%nat -> shift 1 col !! S t = col !! t.
Proof.
  intros Ht. unfold shift. change (0 <=? 1)%Z with true. cbv iota.
  change (Z.to_nat 1) with 1%nat. simpl replicate.
  now rewrite lookup_take_lt by lia.
Qed.

Lemma shift_up_next {A} (col : list (option A)) t :
  (S t < length col)%nat -> shift (-1) col !! t = col !! S t.
Proof.
  intros Ht. unfold shift. change (0 <=? -1)%Z with false. cbv iota.
  change (Z.to_nat (- -1)) with 1%nat.
  rewrite lookup_app_l by (rewrite length_drop; lia).
  now rewrite lookup_drop.
Qed.

Lemma shift_up_last {A} (col : list (option A)) t :
  S t = length col -> shift (-1) col !! t = Some None.
Proof.
  intros Ht. unfold shift. change (0 <=? -1)%Z with false. cbv iota.
  change (Z.to_nat (- -1)) with 1%nat.
  rewrite lookup_app_r by (rewrite length_drop; lia).
  rewrite length_drop. apply lookup_replicate_2. lia.
Qed.

Lemma length_ffill_from {A} p (col : list (option A)) :
  length (ffill_from p col) = length col.
Proof. revert p. induction col; intros p; simpl; [|rewrite IHcol]; easy. Qed.

(** Forward filling leaves a defined cell as it is. *)
Lemma ffill_from_defined {A} (col : list (option A)) : forall p t v,
  col !! t = Some (Some v) -> ffill_from p col !! t = Some (Some v).
Proof.
  induction col as [|x col IH]; intros p [|t] v H; simpl in *;
    try discriminate.
  - injection H as ->. reflexivity.
  - now apply IH.
Qed.

(** Forward filling leaves the undefined cells at the head of a column
    undefined. *)
Lemma ffill_leading {A} (col : list (option A)) : forall t,
  (forall i, (i <= t)%nat -> col !! i = Some None) ->
  ffill_from None col !! t = Some None.
Proof.
  induction col as [|x col IH]; intros t H.
  - specialize (H 0%nat ltac:(lia)). discriminate.
  - pose proof (H 0%nat ltac:(lia)) as H0. simpl in H0. injection H0 as ->.
    destruct t as [|t]; [reflexivity|]. simpl. apply IH.
    intros i Hi. apply (H (S i)). lia.
Qed.

Lemma length_rolling_from window (col : list Q) : forall buf,
  length (rolling_from window buf col) = length col.
Proof. induction col; intros buf; simpl; [|rewrite IHcol]; easy. Qed.

(** The buffer of the scan is the tail of everything read so far. *)
Lemma rolling_buffer window (hist : list Q) x :
  let buf := drop (length hist - window) hist in
  drop (length (buf ++ [x]) - window) (buf ++ [x])
  = drop (length (hist ++ [x]) - window) (hist ++ [x]).
Proof.
  intros buf. subst buf.
  assert (E : drop (length hist - window) hist ++ [x]
              = drop (length hist - window) (hist ++ [x]))
    by (rewrite drop_app_le by lia; reflexivity).
  rewrite E, drop_drop. f_equal.
  rewrite length_drop, !length_app. simpl. lia.
Qed.

Lemma rolling_from_lookup window (col : list Q) : forall hist t,
  (t < length col)%nat ->
  rolling_from window (drop (length hist - window) hist) col !! t
  = Some (let seen := hist ++ take (S t) col in
          let buf := drop (length seen - window) seen in
          if (length buf =? window)%nat then mean buf else None).
Proof.
  induction col as [|x col IH]; intros hist t Ht; simpl in Ht; [lia|].
  simpl rolling_from. rewrite rolling_buffer.
  destruct t as [|t].
  - reflexivity.
  - simpl lookup. rewrite IH by lia. cbv zeta.
    replace ((hist ++ [x]) ++ take (S t) col)
      with (hist ++ take (S (S t)) (x :: col))
      by (simpl; rewrite <- app_assoc; reflexivity).
    reflexivity.
Qed.

(** A cell of the rolling mean: undefined until [window] observations
    are there, then the mean of the last [window] of them. *)
Lemma rolling_mean_lookup (col : list Q) t :
  (t < length col)%nat ->
  rolling_mean 7 col !! t
  = Some (if (t <? 6)%nat then None
          else Some (Qsum (take 7 (drop (t - 6) col)) / inject_Z 7)).
Proof.
  intros Ht. unfold rolling_mean.
  change (@nil Q) with (drop (length (@nil Q) - 7) (@nil Q)) at 1.
  rewrite rolling_from_lookup by assumption. cbv zeta. f_equal.
  rewrite app_nil_l. rewrite length_take, Nat.min_l by lia.
  rewrite length_drop, length_take, Nat.min_l by lia.
  destruct (Nat.ltb_spec t 6).
  - replace (S t - (S t - 7))%nat with (S t) by lia.
    destruct (Nat.eqb_spec (S t) 7); [lia|reflexivity].
  - replace (S t - (S t - 7))%nat with 7%nat by lia. simpl Nat.eqb. cbv iota.
    replace (S t - 7)%nat with (t - 6)%nat by lia.
    replace (drop (t - 6) (take (S t) col))
      with (take 7 (drop (t - 6) col))
      by (rewrite take_drop_commute; f_equal; f_equal; lia).
    rewrite mean_nonempty.
    + rewrite length_take, length_drop, Nat.min_l by lia. reflexivity.
    + intros Hnil. apply (f_equal length) in Hnil.
      rewrite length_take, length_drop in Hnil.
      change (length (@nil Q)) with 0%nat in Hnil. lia.
Qed.

(** ** The merge *)

Lemma elem_of_merge_inner news_df stock_data row :
  row ∈ merge_inner news_df stock_data
  <-> news row ∈ news_df /\ price row ∈ stock_data
      /\ Date (price row) = publishedAt (news row).
Proof.
  unfold merge_inner. rewrite list_elem_of_bind. split.
  - intros (l & Hrow & Hl). apply list_elem_of_fmap in Hrow as (r & -> & Hr).
    apply list_elem_of_filter in Hr as [Hd Hr]. simpl. auto.
  - intros (Hl & Hr & Hd). exists (news row). split; [|assumption].
    apply list_elem_of_fmap. exists (price row). split.
    + now destruct row.
    + apply list_elem_of_filter. auto.
Qed.

Lemma filter_date_absent d stock_data :
  d ∉ Date <$> stock_data -> filter (fun r => Date r = d) stock_data = [].
Proof.
  induction stock_data as [|p s IH]; intros Hd; [reflexivity|].
  rewrite fmap_cons, not_elem_of_cons in Hd. destruct Hd as [Hne Hd].
  rewrite filter_cons_False by congruence. auto.
Qed.

Lemma filter_date_unique d stock_data :
  NoDup (Date <$> stock_data) -> d ∈ Date <$> stock_data ->
  exists p, filter (fun r => Date r = d) stock_data = [p].
Proof.
  induction stock_data as [|p s IH]; intros Hnd Hd.
  - inversion Hd.
  - rewrite fmap_cons in Hnd, Hd. apply NoDup_cons in Hnd as [Hp Hnd].
    destruct (decide (Date p = d)) as [<-|Hne].
    + exists p. rewrite filter_cons_True by reflexivity.
      now rewrite filter_date_absent.
    + rewrite filter_cons_False by assumption. apply IH; [assumption|].
      apply elem_of_cons in Hd as [Hd|Hd]; [congruence|assumption].
Qed.

(** With one price per date, the merged rows are the articles of a date
    that has a price, one row each, in the order of the articles. *)
Lemma merge_news_order news_df stock_data :
  NoDup (Date <$> stock_data) ->
  news <$> merge_inner news_df stock_data
  = filter (fun a => publishedAt a ∈ Date <$> stock_data) news_df.
Proof.
  intros Hnd. unfold merge_inner.
  induction news_df as [|a l IH]; [reflexivity|].
  rewrite bind_cons, fmap_app, IH, filter_cons.
  destruct (decide (publishedAt a ∈ Date <$> stock_data)) as [Hin|Hout].
  - destruct (filter_date_unique _ _ Hnd Hin) as [p ->]. reflexivity.
  - now rewrite filter_date_absent.
Qed.

(** ** Feature engineering *)

Lemma feature_engineering_lookup merged_data t r :
  feature_engineering merged_data !! t = Some r <->
  exists m l a,
    merged_data !! t = Some m
    /\ ffill (shift 1 ((fun r => Some (adjusted_sentiment (news r)))
                         <$> merged_data)) !! t = Some l
    /\ ffill (rolling_mean 7 ((fun r => Close (price r)) <$> merged_data))
         !! t = Some a
    /\ r = {| merged := m; lagged_sentiment := l; MA_7_day := a |}.
Proof.
  unfold feature_engineering. rewrite lookup_zip_with_Some. split.
  - intros (m & [l a] & -> & Hm & Hz).
    apply lookup_zip_with_Some in Hz as (l' & a' & [= <- <-] & Hl & Ha).
    eauto 10.
  - intros (m & l & a & Hm & Hl & Ha & ->).
    exists m, (l, a). repeat split; [assumption|].
    apply lookup_zip_with_Some. eauto.
Qed.

Lemma length_feature_engineering merged_data :
  length (feature_engineering merged_data) = length merged_data.
Proof.
  unfold feature_engineering, ffill, rolling_mean.
  rewrite length_zip_with, length_zip_with, !length_ffill_from, length_shift,
    length_rolling_from, !length_fmap. lia.
Qed.

(** The feature block keeps the merged rows and their order. *)
Lemma feature_engineering_rows merged_data :
  merged <$> feature_engineering merged_data = merged_data.
Proof.
  apply list_eq. intros t. rewrite list_lookup_fmap.
  destruct (feature_engineering merged_data !! t) as [r|] eqn:Hr; simpl.
  - apply feature_engineering_lookup in Hr
      as (m & l & a & Hm & _ & _ & ->). now rewrite Hm.
  - apply lookup_ge_None in Hr. rewrite length_feature_engineering in Hr.
    symmetry. now apply lookup_ge_None.
Qed.

Lemma lagged_column merged_data t :
  let col := (fun r => Some (adjusted_sentiment (news r))) <$> merged_data in
  (t < length merged_data)%nat ->
  ffill (shift 1 col) !! t
  = Some (match t with
          | O => None
          | S t' => adjusted_sentiment ∘ news <$> merged_data !! t'
          end).
Proof.
  intros col Ht. unfold ffill.
  assert (Hlen : length col = length merged_data)
    by (subst col; apply length_fmap).
  destruct t as [|t].
  - destruct (ffill_from None (shift 1 col)) as [|x l] eqn:E.
    + apply (f_equal length) in E.
      rewrite length_ffill_from, length_shift in E. simpl in E. lia.
    + destruct col as [|c col']; [simpl in Hlen; lia|].
      simpl in E. injection E as <- _. reflexivity.
  - destruct (merged_data !! t) as [m|] eqn:Hm.
    + simpl. apply ffill_from_defined.
      rewrite shift_down_next by lia. subst col.
      rewrite list_lookup_fmap, Hm. reflexivity.
    + apply lookup_ge_None in Hm. lia.
Qed.

Lemma rolling_column (close : list Q) t :
  (t < length close)%nat ->
  ffill (rolling_mean 7 close) !! t = rolling_mean 7 close !! t.
Proof.
  intros Ht. rewrite (rolling_mean_lookup close t Ht).
  destruct (Nat.ltb_spec t 6).
  - apply ffill_leading. intros i Hi.
    rewrite rolling_mean_lookup by lia.
    destruct (Nat.ltb_spec i 6); [reflexivity|lia].
  - apply ffill_from_defined. rewrite rolling_mean_lookup by lia.
    destruct (Nat.ltb_spec t 6); [lia|reflexivity].
Qed.

(** C3, as amended: the feature block does not sort. Its rows are the
    merged rows in merge order, which (one price per date) is the order of
    the news articles; in that series the first row has no lag and the lag
    of every later row is the adjusted sentiment of the row before it. *)
Theorem lagged_sentiment_previous_row (news_df : list NewsRow)
    (stock_data : list PricePoint) :
  let merged_data := merge_inner news_df stock_data in
  let rows := build_features news_df stock_data in
  merged <$> rows = merged_data
  /\ (NoDup (Date <$> stock_data) ->
      news ∘ merged <$> rows
      = filter (fun a => publishedAt a ∈ Date <$> stock_data) news_df)
  /\ (forall r, rows !! 0%nat = Some r -> lagged_sentiment r = None)
  /\ (forall t r, rows !! S t = Some r ->
        exists prev, merged_data !! t = Some prev
          /\ lagged_sentiment r = Some (adjusted_sentiment (news prev))).
Proof.
  intros merged_data rows. subst rows. unfold build_features.
  fold merged_data. repeat split.
  - apply feature_engineering_rows.
  - intros Hnd. rewrite list_fmap_compose, feature_engineering_rows.
    now apply merge_news_order.
  - intros r Hr.
    pose proof (lookup_lt_Some _ _ _ Hr) as Hlt.
    rewrite length_feature_engineering in Hlt.
    apply feature_engineering_lookup in Hr as (m & l & a & _ & Hl & _ & ->).
    rewrite lagged_column in Hl by assumption. now injection Hl as <-.
  - intros t r Hr.
    pose proof (lookup_lt_Some _ _ _ Hr) as Hlt.
    rewrite length_feature_engineering in Hlt.
    apply feature_engineering_lookup in Hr as (m & l & a & _ & Hl & _ & ->).
    rewrite lagged_column in Hl by assumption. injection Hl as <-.
    destruct (merged_data !! t) as [prev|] eqn:Hp.
    + exists prev. split; reflexivity.
    + apply lookup_ge_None in Hp. lia.
Qed.

Lemma lagged_sentiment_previous_row_witness :
  exists prev,
    merge_inner sample_feed sample_stock !! 0%nat = Some prev
    /\ Some (5 # 10) = Some (adjusted_sentiment (news prev)).
Proof.
  destruct (lagged_sentiment_previous_row sample_feed sample_stock)
    as (_ & _ & _ & Hlag).
  apply (Hlag 0%nat
           {| merged := {| news := sample_row 1 (- (3 # 10));
                           price := {| Date := 1; Close := 100 |} |};
              lagged_sentiment := Some (5 # 10);
              MA_7_day := None |}).
  reflexivity.
Defined.

(** C3, as stated, fails: nothing sorts the merged rows. With the newer
    article first the rows stay in that order, and the lag of the row of
    day 1 is the score of day 2. *)
Lemma features_not_sorted_by_date :
  let rows := build_features sample_feed sample_stock in
  publishedAt ∘ news ∘ merged <$> rows = [2%Z; 1%Z]
  /\ lagged_sentiment <$> rows = [None; Some (5 # 10)]
  /\ ~ Sorted Z.le (publishedAt ∘ news ∘ merged <$> rows).
Proof.
  repeat split. intros H.
  change (Sorted Z.le [2%Z; 1%Z]) in H.
  apply Sorted_inv in H as [_ H]. apply HdRel_inv in H. lia.
Qed.

(** C4, as amended: the merged data set is the inner join of the news
    table, one row per article, with the price series on the date. A pair
    of an article and a price is a merged row exactly when the dates
    agree, so the date of a merged row is in both sources and a date of one
    source only is in no merged row; with one price per date there is one
    merged row per article of a priced date, which carries that article's
    own adjusted sentiment. *)
Theorem merge_joins_articles (news_df : list NewsRow)
    (stock_data : list PricePoint) :
  let merged_data := merge_inner news_df stock_data in
  (forall row, row ∈ merged_data <->
     news row ∈ news_df /\ price row ∈ stock_data
     /\ Date (price row) = publishedAt (news row))
  /\ (forall row, row ∈ merged_data ->
        publishedAt (news row) ∈ publishedAt <$> news_df
        /\ publishedAt (news row) ∈ Date <$> stock_data)
  /\ (forall d, d ∉ publishedAt <$> news_df \/ d ∉ Date <$> stock_data ->
        (d ∉ publishedAt ∘ news <$> merged_data)
        /\ (d ∉ Date ∘ price <$> merged_data))
  /\ (NoDup (Date <$> stock_data) ->
      news <$> merged_data
      = filter (fun a => publishedAt a ∈ Date <$> stock_data) news_df).
Proof.
  intros merged_data.
  assert (Hrow : forall row, row ∈ merged_data ->
            publishedAt (news row) ∈ publishedAt <$> news_df
            /\ publishedAt (news row) ∈ Date <$> stock_data).
  { intros row Hin. apply elem_of_merge_inner in Hin as (Hn & Hp & Hd).
    split.
    - now apply list_elem_of_fmap_2.
    - rewrite <- Hd. now apply list_elem_of_fmap_2. }
  split; [apply elem_of_merge_inner|].
  split; [exact Hrow|]. split.
  - intros d Hd. split.
    + intros Hin. apply list_elem_of_fmap in Hin as (row & -> & Hin).
      destruct (Hrow row Hin). simpl in Hd. tauto.
    + intros Hin. apply list_elem_of_fmap in Hin as (row & -> & Hin).
      pose proof (proj1 (elem_of_merge_inner _ _ _) Hin) as (_ & _ & E).
      destruct (Hrow row Hin). simpl in Hd. rewrite E in Hd. tauto.
  - apply merge_news_order.
Qed.

Lemma merge_joins_articles_witness :
  news <$> merge_inner sample_day sample_stock = sample_day.
Proof.
  destruct (merge_joins_articles sample_day sample_stock)
    as (_ & _ & _ & Hrows).
  apply Hrows. apply NoDup_cons_2; [|apply NoDup_singleton].
  intros H. apply list_elem_of_singleton in H. discriminate.
Defined.

(** C4, as stated, fails: the merge takes the news table, not the
    aggregation by date. Two articles of one day give two merged rows of
    that day, each with its own score (0.2 and 0.6, not their mean 0.4),
    where the join with the aggregation would have one. *)
Lemma merge_has_a_row_per_article :
  let merged_data := merge_inner sample_day sample_stock in
  publishedAt ∘ news <$> merged_data = [1%Z; 1%Z]
  /\ adjusted_sentiment ∘ news <$> merged_data = [2 # 10; 6 # 10]
  /\ ~ NoDup (publishedAt ∘ news <$> merged_data)
  /\ (exists v, daily_adjusted_sentiment sample_day = [(1%Z, Some v)]
                /\ v == 4 # 10)
  /\ length merged_data = 2%nat
  /\ length (merge_daily sample_day sample_stock) = 1%nat.
Proof.
  repeat split.
  - intros H. change (NoDup [1%Z; 1%Z]) in H.
    apply NoDup_cons in H as [H _]. apply H. left.
  - eexists. split; [vm_compute; reflexivity|reflexivity].
Qed.

(** C7: a cell of the 7-row rolling mean of the merged series is
    undefined in rows 0 to 5 and from row 6 on is the mean of the close of
    that row and the six rows before it, also after the forward fill; on
    the closes 1 to 8 row 6 has 4 and row 7 has 5. *)
Theorem rolling_mean_7_trailing (merged_data : list MergedRow) (t : nat) :
  let close := (fun r => Close (price r)) <$> merged_data in
  let window := take 7 (drop (t - 6) close) in
  let cell :=
    if (t <? 6)%nat then None else Some (Qsum window / inject_Z 7) in
  ((t < length merged_data)%nat ->
   rolling_mean 7 close !! t = Some cell
   /\ (6 <= t -> length window = 7%nat)%nat
   /\ exists r, feature_engineering merged_data !! t = Some r
                /\ MA_7_day r = cell)
  /\ (exists m6 m7,
        rolling_mean 7 [1; 2; 3; 4; 5; 6; 7; 8]
        = [None; None; None; None; None; None; Some m6; Some m7]
        /\ m6 == 4 /\ m7 == 5).
Proof.
  intros close window cell. split.
  - intros Ht.
    assert (Hlen : length close = length merged_data)
      by (subst close; apply length_fmap).
    assert (Hcell : rolling_mean 7 close !! t = Some cell)
      by (apply rolling_mean_lookup; lia).
    split; [exact Hcell|]. split.
    + intros H6. subst window. rewrite length_take, length_drop. lia.
    + destruct (lookup_lt_is_Some_2 (feature_engineering merged_data) t)
        as [r Hr]; [rewrite length_feature_engineering; lia|].
      exists r. split; [assumption|].
      apply feature_engineering_lookup in Hr as (m & l & a & _ & _ & Ha & ->).
      fold close in Ha. rewrite rolling_column, Hcell in Ha by lia.
      now injection Ha as <-.
  - eexists _, _. split; [vm_compute; reflexivity|]. split; reflexivity.
Qed.

Lemma rolling_mean_7_trailing_witness :
  rolling_mean 7 ((fun r => Close (price r)) <$> sample_merged) !! 7%nat
  = Some (Some (Qsum [2; 3; 4; 5; 6; 7; 8] / inject_Z 7)).
Proof.
  destruct (rolling_mean_7_trailing sample_merged 7) as [Hcell _].
  apply Hcell. vm_compute. lia.
Defined.

(** ** The hourly movement data set *)

Lemma length_label hourly : length (Hourly.label hourly) = length hourly.
Proof.
  unfold Hourly.label.
  rewrite !length_zip_with, !length_shift, !length_fmap. lia.
Qed.

(** A row of the labelled frame: the label compares the close of the next
    bucket, if there is one, with the close of the bucket; the lag is the
    adjusted sentiment of the bucket before. *)
Lemma label_lookup hourly t r :
  hourly !! t = Some r ->
  Hourly.label hourly !! t
  = Some {| Hourly.features :=
              Hourly.set_lagged
                (match t with
                 | O => None
                 | S t' => hourly !! t' ≫= Hourly.adjusted_sentiment
                 end) r;
            Hourly.Movement :=
              Hourly.astype_int
                (Hourly.gt (hourly !! S t ≫= Hourly.Close)
                           (Hourly.Close r)) |}.
Proof.
  intros Hr. pose proof (lookup_lt_Some _ _ _ Hr) as Hlt.
  unfold Hourly.label. apply lookup_zip_with_Some.
  eexists r, (_, _). split; [reflexivity|]. split; [assumption|].
  apply lookup_zip_with_Some. eexists _, _. split; [reflexivity|]. split.
  - apply lookup_zip_with_Some. eexists _, _. split; [reflexivity|]. split.
    + destruct (hourly !! S t) as [r'|] eqn:Hn.
      * rewrite shift_up_next
          by (rewrite length_fmap; apply (lookup_lt_Some _ _ _ Hn)).
        rewrite list_lookup_fmap, Hn. reflexivity.
      * apply lookup_ge_None in Hn. apply shift_up_last.
        rewrite length_fmap. lia.
    + rewrite list_lookup_fmap, Hr. reflexivity.
  - destruct t as [|t'].
    + apply shift_down_first. destruct hourly; [discriminate|easy].
    + rewrite shift_down_next by (rewrite length_fmap; lia).
      rewrite list_lookup_fmap.
      destruct (hourly !! t') as [p|] eqn:Hp; [reflexivity|].
      apply lookup_ge_None in Hp. lia.
Qed.

(** The label of a bucket that has a next one. *)
Lemma movement_next_close hourly t r r' c c' :
  hourly !! t = Some r -> hourly !! S t = Some r' ->
  Hourly.Close r = Some c -> Hourly.Close r' = Some c' ->
  exists row, Hourly.label hourly !! t = Some row
    /\ (c < c' -> Hourly.Movement row = 1%Z)
    /\ (c' <= c -> Hourly.Movement row = 0%Z).
Proof.
  intros Hr Hr' Hc Hc'. eexists. split; [apply (label_lookup _ _ _ Hr)|].
  simpl. rewrite Hr'. simpl. rewrite Hc, Hc'. simpl.
  destruct (Qle_bool c' c) eqn:E.
  - apply Qle_bool_iff in E. split; [lra|reflexivity].
  - split; [reflexivity|]. intros Hle. apply Qle_bool_iff in Hle. congruence.
Qed.

(** The last bucket has no next one: the comparison is false and the
    label is 0. *)
Lemma movement_last_bucket hourly t r :
  hourly !! t = Some r -> S t = length hourly ->
  exists row, Hourly.label hourly !! t = Some row
    /\ Hourly.Movement row = 0%Z.
Proof.
  intros Hr Hlast. eexists. split; [apply (label_lookup _ _ _ Hr)|].
  simpl. rewrite (proj2 (lookup_ge_None hourly (S t))) by lia. reflexivity.
Qed.

(** [dropna] keeps the last bucket whenever its columns and the adjusted
    sentiment of the bucket before it are defined. *)
Lemma last_bucket_kept hourly t prev r s a c m l :
  hourly !! t = Some prev -> hourly !! S t = Some r ->
  S (S t) = length hourly ->
  Hourly.adjusted_sentiment prev = Some l ->
  Hourly.sentiment r = Some s -> Hourly.adjusted_sentiment r = Some a ->
  Hourly.Close r = Some c -> Hourly.MA_7_day r = Some m ->
  {| Hourly.features := Hourly.set_lagged (Some l) r;
     Hourly.Movement := 0 |}
  ∈ Hourly.dropna (Hourly.label hourly).
Proof.
  intros Hp Hr Hlast Hl Hs Ha Hc Hm. unfold Hourly.dropna.
  apply list_elem_of_filter. split.
  - unfold Hourly.complete. simpl. rewrite Hs, Ha, Hc, Hm. reflexivity.
  - apply (list_elem_of_lookup_2 _ (S t)).
    rewrite (label_lookup hourly (S t) r Hr). rewrite Hp. simpl. rewrite Hl.
    rewrite (proj2 (lookup_ge_None hourly (S (S t)))) by lia. reflexivity.
Qed.

(** C5 on the code: the labels before [dropna] are as the claim has them
    (22 zeros, then 1 where the close goes from 10 to 12), but the last of
    the 25 hourly buckets, which has no next bucket, gets the label 0 and
    stays in the data set; the bucket that [dropna] removes is the first
    one, whose lag is undefined. *)
Theorem hourly_final_bucket_kept :
  let hourly := Hourly.fillna_ffill (Hourly.resample_H_mean sample_frame) in
  let dataset := Hourly.merged_data_hourly sample_frame in
  Hourly.index <$> hourly = seqZ 0 25
  /\ Hourly.Movement <$> Hourly.label hourly
     = replicate 23 0%Z ++ [1%Z; 0%Z]
  /\ Hourly.index ∘ Hourly.features <$> dataset = seqZ 1 24
  /\ Hourly.Movement <$> dataset = replicate 22 0%Z ++ [1%Z; 0%Z].
Proof. vm_compute. repeat split. Qed.

(** The same on the closes [10, 12] of the claim: the first bucket, the
    one with the label 1, is dropped and the last one stays with 0. *)
Lemma hourly_two_buckets :
  Hourly.Movement <$> Hourly.label two_buckets = [1%Z; 0%Z]
  /\ (Hourly.index ∘ Hourly.features <$> Hourly.merged_data_hourly two_buckets,
      Hourly.Movement <$> Hourly.merged_data_hourly two_buckets)
     = ([1%Z], [0%Z]).
Proof. vm_compute. repeat split. Qed.

(** ** The news request *)

Lemma main_failure status_code pipeline :
  status_code <> 200%Z ->
  Script.run (Script.main status_code pipeline)
  = ([Script.Get Script.url;
      Script.Print "Failed to retrieve news:" status_code],
     Script.Exited).
Proof.
  intros Hne. unfold Script.run, Script.main, Script.requests_get, Script.bind,
    Script.emit, Script.ret, Script.exit. simpl.
  destruct (Z.eqb_spec status_code 200); [contradiction|reflexivity].
Qed.

Lemma main_success pipeline :
  Script.run (Script.main 200 pipeline) = pipeline [Script.Get Script.url].
Proof. reflexivity. Qed.

(** C9: when the status code is not 200 the run makes its one request,
    prints the failure message with the code and leaves: whatever the rest
    of the script is, none of it runs. When the code is 200 the rest of
    the script runs after the request, and only then. *)
Theorem request_failure_halts (status_code : Z) :
  (status_code <> 200%Z ->
   forall pipeline,
     Script.run (Script.main status_code pipeline)
     = ([Script.Get Script.url;
         Script.Print "Failed to retrieve news:" status_code],
        Script.Exited))
  /\ (status_code = 200%Z <->
      forall pipeline,
        Script.run (Script.main status_code pipeline)
        = pipeline [Script.Get Script.url]).
Proof.
  split; [intros Hne pipeline; now apply main_failure|]. split.
  - intros -> pipeline. apply main_success.
  - intros H. destruct (decide (status_code = 200%Z)) as [|Hne]; [assumption|].
    specialize (H (Script.ret tt)).
    rewrite main_failure in H by assumption. discriminate.
Qed.

Lemma request_failure_halts_witness :
  Script.run (Script.main 404 (Script.emit (Script.Print "Ridge R-squared:" 1)))
  = ([Script.Get Script.url; Script.Print "Failed to retrieve news:" 404],
     Script.Exited)
  /\ Script.run
       (Script.main 200 (Script.emit (Script.Print "Ridge R-squared:" 1)))
     = ([Script.Get Script.url; Script.Print "Ridge R-squared:" 1],
        Script.Returned tt).
Proof.
  split.
  - apply (request_failure_halts 404); discriminate.
  - destruct (request_failure_halts 200) as [_ [Hrun _]].
    apply (Hrun eq_refl).
Defined.

(** * Further properties of the code *)

(** ** The adjuster *)

Lemma clamp_monotone x y : x <= y -> clamp (-1) 1 x <= clamp (-1) 1 y.
Proof.
  intros Hxy. unfold clamp.
  destruct (Qle_bool x (-1)) eqn:X1; destruct (Qle_bool y (-1)) eqn:Y1;
    destruct (Qle_bool 1 x) eqn:X2; destruct (Qle_bool 1 y) eqn:Y2;
    repeat match goal with
           | H : Qle_bool _ _ = true |- _ => apply Qle_bool_iff in H
           | H : Qle_bool ?a ?b = false |- _ =>
               assert (~ a <= b) by (rewrite <- Qle_bool_iff; congruence);
               clear H
           end; lra.
Qed.

Lemma clamp_compat x y : x == y -> clamp (-1) 1 x == clamp (-1) 1 y.
Proof.
  intros E. unfold clamp.
  assert (H1 : Qle_bool x (-1) = Qle_bool y (-1))
    by (apply Qleb_comp; [exact E|reflexivity]).
  assert (H2 : Qle_bool 1 x = Qle_bool 1 y)
    by (apply Qleb_comp; [reflexivity|exact E]).
  rewrite H1, H2.
  destruct (Qle_bool y (-1)); [reflexivity|].
  destruct (Qle_bool 1 y); [reflexivity|exact E].
Qed.

Lemma clamp_opp x : clamp (-1) 1 (- x) == - clamp (-1) 1 x.
Proof.
  unfold clamp.
  destruct (Qle_bool (- x) (-1)) eqn:A1; destruct (Qle_bool 1 (- x)) eqn:A2;
    destruct (Qle_bool x (-1)) eqn:B1; destruct (Qle_bool 1 x) eqn:B2;
    repeat match goal with
           | H : Qle_bool _ _ = true |- _ => apply Qle_bool_iff in H
           | H : Qle_bool ?a ?b = false |- _ =>
               assert (~ a <= b) by (rewrite <- Qle_bool_iff; congruence);
               clear H
           end; lra.
Qed.

(** The adjusted score grows with the base score. *)
Theorem adjustment_monotone (lm_positive lm_negative : gset string)
    (text : string) (low high : Q) :
  low <= high ->
  financial_sentiment_adjustment lm_positive lm_negative text low
  <= financial_sentiment_adjustment lm_positive lm_negative text high.
Proof.
  intros H. rewrite !adjust_unfold. apply clamp_monotone. lra.
Qed.

Lemma adjustment_monotone_witness :
  financial_sentiment_adjustment sample_positive sample_negative
    "profit and loss and growth" (- (3 # 10))
  <= financial_sentiment_adjustment sample_positive sample_negative
       "profit and loss and growth" (95 # 100).
Proof. apply adjustment_monotone. discriminate. Defined.

(** Only the tokens count, not their order nor the white space between
    them: two texts with the same lower-cased tokens in any order get the
    same score. *)
Theorem adjustment_token_order (lm_positive lm_negative : gset string)
    (text1 text2 : string) (sentiment_score : Q) :
  PyStr.split (PyStr.lower text1) ≡ₚ PyStr.split (PyStr.lower text2) ->
  financial_sentiment_adjustment lm_positive lm_negative text1 sentiment_score
  = financial_sentiment_adjustment lm_positive lm_negative text2
      sentiment_score.
Proof.
  intros H. rewrite !adjust_unfold. unfold pos_count, neg_count.
  now rewrite H.
Qed.

Lemma adjustment_token_order_witness :
  financial_sentiment_adjustment sample_positive sample_negative
    "Growth slows, loss widens" (1 # 4)
  = financial_sentiment_adjustment sample_positive sample_negative
      "  LOSS widens   growth slows,  " (1 # 4).
Proof.
  apply adjustment_token_order. vm_compute.
  apply (Permutation_trans (l' := ["growth"; "loss"; "slows,"; "widens"])).
  - apply perm_skip, perm_swap.
  - apply (Permutation_trans (l' := ["loss"; "growth"; "slows,"; "widens"])).
    + apply perm_swap.
    + apply perm_skip.
      apply (Permutation_trans (l' := ["growth"; "widens"; "slows,"])).
      * apply perm_skip, perm_swap.
      * apply perm_swap.
Defined.

(** As many positive as negative hits leave a base score of [-1, 1] as it
    is. *)
Theorem adjustment_tie (lm_positive lm_negative : gset string)
    (text : string) (base_score : Q) :
  pos_count lm_positive (PyStr.split (PyStr.lower text))
  = neg_count lm_positive lm_negative (PyStr.split (PyStr.lower text)) ->
  -1 <= base_score <= 1 ->
  financial_sentiment_adjustment lm_positive lm_negative text base_score
  == base_score.
Proof.
  intros Htie Hb. rewrite adjust_unfold, Htie, Z.sub_diag.
  assert (E : base_score + inject_Z 0 * (1 # 10) == base_score) by ring.
  rewrite (clamp_compat _ _ E). now apply clamp_inside.
Qed.

Lemma adjustment_tie_witness :
  financial_sentiment_adjustment sample_positive sample_negative
    "growth despite default" (- (7 # 10)) == - (7 # 10).
Proof.
  apply adjustment_tie; [vm_compute; reflexivity|split; discriminate].
Defined.

(** The clamp saturates: twenty hits more on one side than on the other
    send every base score of [-1, 1] to that end of the interval. *)
Theorem adjustment_saturates (lm_positive lm_negative : gset string)
    (text : string) (base_score : Q) :
  let pos := pos_count lm_positive (PyStr.split (PyStr.lower text)) in
  let neg := neg_count lm_positive lm_negative
               (PyStr.split (PyStr.lower text)) in
  -1 <= base_score <= 1 ->
  ((pos - neg >= 20)%Z ->
   financial_sentiment_adjustment lm_positive lm_negative text base_score = 1)
  /\ ((pos - neg <= -20)%Z ->
      financial_sentiment_adjustment lm_positive lm_negative text base_score
      = -1).
Proof.
  intros pos neg Hb. rewrite adjust_unfold. fold pos. fold neg.
  set (k := (pos - neg)%Z). unfold clamp. split; intros Hk.
  - assert (Hq : 20 <= inject_Z k)
      by (change 20 with (inject_Z 20); rewrite <- Zle_Qle; lia).
    destruct (Qle_bool (base_score + inject_Z k * (1 # 10)) (-1)) eqn:E1.
    + apply Qle_bool_iff in E1. lra.
    + destruct (Qle_bool 1 (base_score + inject_Z k * (1 # 10))) eqn:E2;
        [reflexivity|].
      assert (~ 1 <= base_score + inject_Z k * (1 # 10))
        by (rewrite <- Qle_bool_iff; congruence).
      lra.
  - assert (Hq : inject_Z k <= -20)
      by (change (-20) with (inject_Z (-20)); rewrite <- Zle_Qle; lia).
    destruct (Qle_bool (base_score + inject_Z k * (1 # 10)) (-1)) eqn:E1;
      [reflexivity|].
    assert (~ base_score + inject_Z k * (1 # 10) <= -1)
      by (rewrite <- Qle_bool_iff; congruence).
    lra.
Qed.

Lemma adjustment_saturates_witness :
  financial_sentiment_adjustment sample_positive sample_negative
    "loss loss loss loss loss loss loss loss loss loss loss loss loss loss loss loss loss loss loss loss"
    1 = -1.
Proof.
  destruct (adjustment_saturates sample_positive sample_negative
    "loss loss loss loss loss loss loss loss loss loss loss loss loss loss loss loss loss loss loss loss"
    1) as [_ Hneg]; [split; discriminate|].
  apply Hneg. vm_compute. discriminate.
Defined.

(** With disjoint word sets the adjuster is odd: exchanging the two sets
    and the sign of the base score changes the sign of the result. *)
Theorem adjustment_swap_lexicons (lm_positive lm_negative : gset string)
    (text : string) (sentiment_score : Q) :
  lm_positive ## lm_negative ->
  financial_sentiment_adjustment lm_negative lm_positive text
    (- sentiment_score)
  == - financial_sentiment_adjustment lm_positive lm_negative text
         sentiment_score.
Proof.
  intros Hdisj. rewrite !adjust_unfold.
  set (words := PyStr.split (PyStr.lower text)).
  assert (Hn : neg_count lm_positive lm_negative words
               = pos_count lm_negative words).
  { unfold neg_count, pos_count. f_equal. f_equal.
    apply list_filter_iff. intros w. split; [now intros [_ H]|].
    intros H. split; [|exact H]. intros H'.
    exact (proj1 (elem_of_disjoint _ _) Hdisj w H' H). }
  assert (Hp : neg_count lm_negative lm_positive words
               = pos_count lm_positive words).
  { unfold neg_count, pos_count. f_equal. f_equal.
    apply list_filter_iff. intros w. split; [now intros [_ H]|].
    intros H. split; [|exact H]. intros H'.
    exact (proj1 (elem_of_disjoint _ _) Hdisj w H H'). }
  rewrite Hn, Hp, <- clamp_opp. apply clamp_compat.
  unfold Z.sub. rewrite !inject_Z_plus, !inject_Z_opp. ring.
Qed.

Lemma adjustment_swap_lexicons_witness :
  financial_sentiment_adjustment sample_negative sample_positive
    "growth and profit but one default" (- (1 # 4))
  == - financial_sentiment_adjustment sample_positive sample_negative
         "growth and profit but one default" (1 # 4).
Proof.
  apply adjustment_swap_lexicons.
  refine (bool_decide_unpack _ _). vm_compute. exact I.
Defined.

(** ** The cleaned title and the adjuster *)

Lemma isword_lower_char c :
  PyStr.isword (PyStr.lower_char c) = PyStr.isword c.
Proof. destruct c as [[] [] [] [] [] [] [] []]; reflexivity. Qed.

Lemma lower_fixed s :
  Forall (fun c => PyStr.isupper c = false) (PyStr.chars s) ->
  PyStr.lower s = s.
Proof.
  induction s as [|c s IH]; simpl; intros H; [reflexivity|].
  inversion H as [|? ? Hc Hs]; subst.
  unfold PyStr.lower_char. rewrite Hc. now rewrite IH.
Qed.

Lemma clean_text_split stop_words word_tokenize text :
  tokenizer_contract word_tokenize ->
  PyStr.split (clean_text stop_words word_tokenize text)
  = filter (fun word => word ∉ stop_words)
      (word_tokenize (PyStr.strip_punct (PyStr.lower text))).
Proof.
  intros Hc. unfold clean_text. apply split_join.
  eapply Forall_impl; [apply (clean_tokens _ _ _ Hc)|]. now intros w [Hw _].
Qed.

Lemma clean_text_lower stop_words word_tokenize text :
  tokenizer_contract word_tokenize ->
  PyStr.lower (clean_text stop_words word_tokenize text)
  = clean_text stop_words word_tokenize text.
Proof.
  intros Hc. apply lower_fixed, Forall_forall. intros c Hin.
  unfold clean_text in Hin.
  destruct (join_chars _ _ Hin) as [->|(t & Ht & Hct)]; [reflexivity|].
  pose proof (proj1 (Forall_forall _ _) (clean_tokens _ _ text Hc) t Ht)
    as (_ & _ & _ & Hall).
  now apply (proj1 (Forall_forall _ _) Hall).
Qed.

(** In the pipeline the adjuster gets a cleaned title: its own
    lower-casing then changes nothing, the tokens it looks up are the
    tokens that survived the stop-word filter (so a stop-word never
    scores), and the score is the one of a lookup of the tokens as they
    are. *)
Theorem adjustment_of_cleaned_title
    (lm_positive lm_negative stop_words : gset string)
    (word_tokenize : string -> list string) (title : string)
    (sentiment_score : Q) :
  tokenizer_contract word_tokenize ->
  let cleaned := clean_text stop_words word_tokenize title in
  let words := PyStr.split (PyStr.lower cleaned) in
  words = filter (fun word => word ∉ stop_words)
            (word_tokenize (PyStr.strip_punct (PyStr.lower title)))
  /\ Forall (fun word => word ∉ stop_words) words
  /\ financial_sentiment_adjustment lm_positive lm_negative cleaned
       sentiment_score
     = adjustment_without_normalization lm_positive lm_negative cleaned
         sentiment_score.
Proof.
  intros Hc cleaned words. subst words cleaned.
  rewrite clean_text_lower, clean_text_split by assumption.
  split; [reflexivity|]. split.
  - apply Forall_forall. intros w Hw.
    now apply list_elem_of_filter in Hw as [Hw _].
  - rewrite adjust_unfold. unfold adjustment_without_normalization.
    now rewrite clean_text_lower.
Qed.

Lemma adjustment_of_cleaned_title_witness :
  financial_sentiment_adjustment sample_positive sample_negative
    (clean_text sample_stop_words PyStr.split "The GROWTH is a Default!")
    (1 # 2)
  = adjustment_without_normalization sample_positive sample_negative
      (clean_text sample_stop_words PyStr.split "The GROWTH is a Default!")
      (1 # 2).
Proof.
  apply (adjustment_of_cleaned_title sample_positive sample_negative
           sample_stop_words PyStr.split "The GROWTH is a Default!" (1 # 2)
           split_contract).
Defined.

(** A title without any word character (punctuation and white space
    only) is cleaned to the empty string. *)
Theorem clean_text_blank (stop_words : gset string)
    (word_tokenize : string -> list string) (text : string) :
  tokenizer_contract word_tokenize ->
  Forall (fun c => PyStr.isword c = false) (PyStr.chars text) ->
  clean_text stop_words word_tokenize text = "".
Proof.
  intros [_ Htok] Hblank. unfold clean_text.
  assert (Hsp : forall c,
            c ∈ PyStr.chars (PyStr.strip_punct (PyStr.lower text)) ->
            PyStr.isspace c = true).
  { clear Htok. induction text as [|x text IH]; simpl; intros c Hin.
    - inversion Hin.
    - inversion Hblank as [|? ? Hx Hrest]; subst.
      rewrite isword_lower_char, Hx in Hin. simpl in Hin.
      destruct (PyStr.isspace (PyStr.lower_char x)) eqn:E; [|now apply IH].
      simpl in Hin. apply elem_of_cons in Hin as [->|Hin];
        [assumption|now apply IH]. }
  destruct (word_tokenize (PyStr.strip_punct (PyStr.lower text)))
    as [|w ws] eqn:E; [reflexivity|].
  exfalso.
  destruct (Htok (PyStr.strip_punct (PyStr.lower text)) w
              (strip_punct_chars _)) as [Hne Hall].
  { rewrite E. left. }
  destruct w as [|c w]; [congruence|].
  simpl in Hall. apply Forall_cons in Hall as [[Hin Hns] _].
  rewrite (Hsp c Hin) in Hns. discriminate.
Qed.

Lemma clean_text_blank_witness :
  clean_text sample_stop_words PyStr.split " ?!  ... -- $ " = "".
Proof.
  apply clean_text_blank; [exact split_contract|].
  vm_compute. repeat constructor.
Defined.

(** ** The aggregation by date *)

Lemma Qsum_bounds lo hi xs :
  Forall (fun x => lo <= x <= hi) xs ->
  inject_Z (Z.of_nat (length xs)) * lo <= Qsum xs
  /\ Qsum xs <= inject_Z (Z.of_nat (length xs)) * hi.
Proof.
  induction 1 as [|x xs [Hlo Hhi] _ [IHlo IHhi]].
  - change (Qsum []) with 0.
    change (inject_Z (Z.of_nat (length (@nil Q)))) with 0. lra.
  - change (Qsum (x :: xs)) with (x + Qsum xs).
    change (length (x :: xs)) with (S (length xs)).
    rewrite Nat2Z.inj_succ. unfold Z.succ. rewrite inject_Z_plus.
    change (inject_Z 1) with 1. lra.
Qed.

Lemma mean_bounds lo hi xs m :
  Forall (fun x => lo <= x <= hi) xs -> mean xs = Some m -> lo <= m <= hi.
Proof.
  intros Hall Hm. destruct xs as [|x xs]; [discriminate|].
  injection Hm as <-. destruct (Qsum_bounds lo hi _ Hall) as [Hlo Hhi].
  set (n := inject_Z (Z.of_nat (length (x :: xs)))) in *.
  assert (Hn : 0 < n).
  { subst n. change 0 with (inject_Z 0). rewrite <- Zlt_Qlt. simpl. lia. }
  split.
  - apply Qle_shift_div_l; [assumption|].
    change (lo * n <= Qsum (x :: xs)). clearbody n. lra.
  - apply Qle_shift_div_r; [assumption|].
    change (Qsum (x :: xs) <= hi * n). clearbody n. lra.
Qed.

(** In exact arithmetic a daily mean stays between the bounds of the
    article scores: every row of the aggregation has a defined value,
    within [lo, hi] when all adjusted sentiments are. *)
Lemma daily_mean_bounded (news_df : list NewsRow) (lo hi : Q) :
  Forall (fun r => lo <= adjusted_sentiment r <= hi) news_df ->
  Forall (fun row => exists m, row.2 = Some m /\ lo <= m <= hi)
         (daily_adjusted_sentiment news_df).
Proof.
  intros Hall. apply Forall_forall. intros [d v] Hin.
  apply list_elem_of_fmap in Hin as (d' & [= -> ->] & Hd').
  rewrite elem_of_group_keys in Hd'.
  assert (Hscores : Forall (fun x => lo <= x <= hi)
                      (adjusted_sentiment <$> on_date d' news_df)).
  { apply Forall_fmap, Forall_forall. intros r Hr.
    apply list_elem_of_filter in Hr as [_ Hr].
    now apply (proj1 (Forall_forall _ _) Hall). }
  rewrite (mean_nonempty _ (on_date_nonempty _ _ Hd')). eexists.
  split; [reflexivity|].
  apply (mean_bounds lo hi (adjusted_sentiment <$> on_date d' news_df));
    [assumption|now apply mean_nonempty, on_date_nonempty].
Qed.

(** The daily sentiment of scored articles lies in [-1, 1], whatever the
    titles, the word sets and the general sentiment analyzer are. *)
Theorem daily_sentiment_in_range
    (lm_positive lm_negative stop_words : gset string)
    (word_tokenize : string -> list string) (compound : string -> Q)
    (articles : list (string * Z)) :
  Forall (fun row => exists m, row.2 = Some m /\ -1 <= m <= 1)
    (daily_adjusted_sentiment
       (score_news lm_positive lm_negative stop_words word_tokenize
          compound articles)).
Proof.
  apply daily_mean_bounded. unfold score_news.
  apply Forall_fmap, Forall_forall. intros a _. apply score_article_range.
Qed.

Lemma sorted_lt_NoDup (l : list Z) : StronglySorted Z.lt l -> NoDup l.
Proof.
  induction 1 as [|x l _ IH Hall]; constructor; [|assumption].
  intros Hin. apply (proj1 (Forall_forall _ _) Hall) in Hin. lia.
Qed.

(** Two strictly ascending lists with the same elements are equal. *)
Lemma sorted_lt_ext (l k : list Z) :
  StronglySorted Z.lt l -> StronglySorted Z.lt k ->
  (forall x, x ∈ l <-> x ∈ k) -> l = k.
Proof.
  intros Hl Hk Hext. apply (StronglySorted_unique_strong Z.lt);
    [intros; lia|assumption|assumption|].
  apply NoDup_Permutation; auto using sorted_lt_NoDup.
Qed.

Lemma sorted_lt_filter (P : Z -> Prop) `{!forall x, Decision (P x)} l :
  StronglySorted Z.lt l -> StronglySorted Z.lt (filter P l).
Proof.
  induction 1 as [|x l _ IH Hall]; [constructor|].
  rewrite filter_cons. destruct (decide (P x)); [|assumption].
  constructor; [assumption|]. apply Forall_forall. intros y Hy.
  apply list_elem_of_filter in Hy as [_ Hy].
  now apply (proj1 (Forall_forall _ _) Hall).
Qed.

Lemma group_keys_Permutation keys keys' :
  keys ≡ₚ keys' -> group_keys keys = group_keys keys'.
Proof.
  intros H. apply sorted_lt_ext; try apply group_keys_sorted.
  intros x. rewrite !elem_of_group_keys. now rewrite H.
Qed.

(** The rows of the aggregation and the articles behind each row do not
    depend on the order of the articles: a permutation of the news table
    gives the same dates in the same order, and for every date the same
    group of articles. *)
Theorem daily_groups_article_order (news_df news_df' : list NewsRow) :
  news_df ≡ₚ news_df' ->
  (daily_adjusted_sentiment news_df).*1
  = (daily_adjusted_sentiment news_df').*1
  /\ forall d, on_date d news_df ≡ₚ on_date d news_df'.
Proof.
  intros Hperm. split.
  - rewrite !daily_dates. apply group_keys_Permutation. now rewrite Hperm.
  - intros d. unfold on_date. now rewrite Hperm.
Qed.

Lemma daily_groups_article_order_witness :
  (daily_adjusted_sentiment
     [sample_row 3 (2 # 10); sample_row 1 (5 # 10); sample_row 3 (6 # 10)]).*1
  = (daily_adjusted_sentiment
       [sample_row 1 (5 # 10); sample_row 3 (6 # 10);
        sample_row 3 (2 # 10)]).*1.
Proof.
  apply daily_groups_article_order.
  apply (Permutation_trans
           (l' := [sample_row 1 (5 # 10); sample_row 3 (2 # 10);
                   sample_row 3 (6 # 10)])).
  - apply perm_swap.
  - apply perm_skip, perm_swap.
Defined.

Lemma filter_fmap_commute {A B} (f : A -> B) (P : B -> Prop)
    `{!forall y, Decision (P y)} (l : list A) :
  filter P (f <$> l) = f <$> filter (fun x => P (f x)) l.
Proof.
  induction l as [|x l IH]; [reflexivity|].
  rewrite fmap_cons, !filter_cons.
  destruct (decide (P (f x))); [rewrite fmap_cons|]; now rewrite IH.
Qed.

(** Aggregating the merged rows by date gives the aggregation of the
    news table, restricted to the dates that have a price: with one price
    per date, merging the articles and then averaging per date is the same
    as averaging per date and then dropping the dates without price. *)
Theorem daily_mean_of_merged (news_df : list NewsRow)
    (stock_data : list PricePoint) :
  NoDup (Date <$> stock_data) ->
  daily_adjusted_sentiment (news <$> merge_inner news_df stock_data)
  = filter (fun row => row.1 ∈ Date <$> stock_data)
      (daily_adjusted_sentiment news_df).
Proof.
  intros Hnd. rewrite merge_news_order by assumption.
  set (priced := fun a => publishedAt a ∈ Date <$> stock_data).
  unfold daily_adjusted_sentiment. rewrite filter_fmap_commute. simpl.
  assert (Hkeys : group_keys (publishedAt <$> filter priced news_df)
                  = filter (fun d => d ∈ Date <$> stock_data)
                      (group_keys (publishedAt <$> news_df))).
  { apply sorted_lt_ext.
    - apply group_keys_sorted.
    - apply sorted_lt_filter, group_keys_sorted.
    - intros d. rewrite elem_of_group_keys, list_elem_of_filter,
        elem_of_group_keys. split.
      + intros Hd. apply list_elem_of_fmap in Hd as (a & -> & Ha).
        apply list_elem_of_filter in Ha as [Hp Ha].
        split; [exact Hp|now apply list_elem_of_fmap_2].
      + intros [Hd Hin]. apply list_elem_of_fmap in Hin as (a & -> & Ha).
        apply list_elem_of_fmap_2, list_elem_of_filter. auto. }
  rewrite Hkeys. apply list_fmap_ext. intros i d Hd.
  apply list_elem_of_lookup_2, list_elem_of_filter in Hd as [Hd _].
  f_equal. f_equal. f_equal. unfold on_date.
  rewrite list_filter_filter. apply list_filter_iff. intros a.
  subst priced. simpl. split; [tauto|]. intros <-. tauto.
Qed.

Lemma daily_mean_of_merged_witness :
  daily_adjusted_sentiment
    (news <$> merge_inner
                [sample_row 2 (5 # 10); sample_row 7 (1 # 10);
                 sample_row 2 (3 # 10)] sample_stock)
  = filter (fun row => row.1 ∈ Date <$> sample_stock)
      (daily_adjusted_sentiment
         [sample_row 2 (5 # 10); sample_row 7 (1 # 10);
          sample_row 2 (3 # 10)]).
Proof.
  apply daily_mean_of_merged. apply NoDup_cons_2; [|apply NoDup_singleton].
  intros H. apply list_elem_of_singleton in H. discriminate.
Defined.

(** ** Forward fill and rolling mean *)

Lemma fill_cell_idem {A} (p x : option A) :
  fill_cell p (fill_cell p x) = fill_cell p x.
Proof. destruct x, p; reflexivity. Qed.

Lemma ffill_from_ffill_from {A} (col : list (option A)) : forall p,
  ffill_from p (ffill_from p col) = ffill_from p col.
Proof.
  induction col as [|x col IH]; intros p; simpl; [reflexivity|].
  rewrite fill_cell_idem. f_equal. apply IH.
Qed.

(** Forward filling twice is forward filling once. *)
Theorem ffill_idempotent {A} (col : list (option A)) :
  ffill (ffill col) = ffill col.
Proof. apply ffill_from_ffill_from. Qed.

Lemma ffill_from_undefined {A} (col : list (option A)) : forall p i,
  ffill_from p col !! i = Some None ->
  p = None /\ forall j, (j <= i)%nat -> col !! j = Some None.
Proof.
  induction col as [|x col IH]; intros p i H; [discriminate|].
  destruct i as [|i]; simpl in H.
  - destruct x; [discriminate|]. simpl in H. injection H as ->.
    split; [reflexivity|]. intros j Hj. now replace j with 0%nat by lia.
  - apply IH in H as [Hp Hcol]. destruct x; [discriminate|].
    simpl in Hp. split; [assumption|]. intros [|j] Hj; [reflexivity|].
    apply Hcol. lia.
Qed.

(** After the forward fill a cell is undefined exactly when it and every
    cell before it were undefined: the gaps that remain are at the head of
    the column. *)
Theorem ffill_undefined_prefix {A} (col : list (option A)) (i : nat) :
  ffill col !! i = Some None
  <-> forall j, (j <= i)%nat -> col !! j = Some None.
Proof.
  split.
  - intros H. now apply ffill_from_undefined in H as [_ H].
  - apply ffill_leading.
Qed.

Lemma rolling_short window (col : list Q) :
  (length col < window)%nat ->
  rolling_mean window col = replicate (length col) None.
Proof.
  intros Hlen. apply list_eq. intros t. unfold rolling_mean.
  destruct (decide (t < length col)%nat) as [Ht|Ht].
  - change (@nil Q) with (drop (length (@nil Q) - window) (@nil Q)) at 1.
    rewrite rolling_from_lookup by assumption.
    rewrite lookup_replicate_2 by assumption. cbv zeta. f_equal.
    rewrite app_nil_l.
    destruct (Nat.eqb_spec
                (length (drop (length (take (S t) col) - window)
                           (take (S t) col))) window) as [E|]; [|reflexivity].
    rewrite length_drop, length_take in E. lia.
  - rewrite (proj2 (lookup_ge_None _ _))
      by (rewrite length_rolling_from; lia).
    symmetry. apply lookup_ge_None. rewrite length_replicate. lia.
Qed.

(** With fewer than seven merged rows no row gets a rolling mean, also
    after the forward fill. *)
Theorem rolling_mean_short_series (merged_data : list MergedRow) :
  (length merged_data < 7)%nat ->
  Forall (fun r => MA_7_day r = None) (feature_engineering merged_data).
Proof.
  intros Hlen. apply Forall_lookup. intros t r Hr.
  apply feature_engineering_lookup in Hr as (m & l & a & Hm & _ & Ha & ->).
  simpl. rewrite rolling_short in Ha by (rewrite length_fmap; lia).
  assert (Hnone : ffill (replicate
                           (length ((fun r => Close (price r))
                                      <$> merged_data)) (@None Q)) !! t
                  = Some None).
  { apply ffill_leading. intros i Hi. apply lookup_replicate_2.
    rewrite length_fmap. apply lookup_lt_Some in Hm. lia. }
  rewrite Hnone in Ha. now injection Ha as <-.
Qed.

Lemma rolling_mean_short_series_witness :
  Forall (fun r => MA_7_day r = None)
         (feature_engineering (take 6 sample_merged)).
Proof. apply rolling_mean_short_series. vm_compute. lia. Defined.

(** ** The hourly frame *)

Lemma seqZ_sorted m n : StronglySorted Z.lt (seqZ m n).
Proof.
  destruct (Z.le_gt_cases n 0) as [Hn|Hn]; [rewrite seqZ_nil by lia; constructor|].
  rewrite <- (Z2Nat.id n) by lia.
  induction (Z.to_nat n) as [|i IH]; [constructor|].
  rewrite seqZ_S. apply StronglySorted_app_2; [|assumption|repeat constructor].
  intros x y Hx Hy. apply elem_of_seqZ in Hx.
  apply list_elem_of_singleton in Hy. lia.
Qed.

Lemma sorted_fmap_filter {A} (f : A -> Z) (P : A -> Prop)
    `{!forall x, Decision (P x)} (l : list A) :
  StronglySorted Z.lt (f <$> l) -> StronglySorted Z.lt (f <$> filter P l).
Proof.
  induction l as [|x l IH]; [trivial|].
  rewrite fmap_cons. intros Hsorted.
  apply StronglySorted_cons in Hsorted as [Hall Hs].
  rewrite filter_cons. destruct (decide (P x)); [|auto].
  rewrite fmap_cons. constructor; [auto|].
  apply Forall_forall. intros y Hy.
  apply list_elem_of_fmap in Hy as (a & -> & Ha).
  apply list_elem_of_filter in Ha as [_ Ha].
  apply (proj1 (Forall_forall _ _) Hall). now apply list_elem_of_fmap_2.
Qed.

Lemma filter_none {A} (P : A -> Prop) `{!forall x, Decision (P x)} l :
  Forall (fun x => ~ P x) l -> filter P l = [].
Proof.
  induction 1 as [|x l Hx _ IH]; [reflexivity|].
  now rewrite filter_cons_False.
Qed.

Lemma foldr_min_spec h hs :
  foldr Z.min h hs ∈ h :: hs
  /\ forall x, x ∈ h :: hs -> (foldr Z.min h hs <= x)%Z.
Proof.
  induction hs as [|y hs [IHin IHle]]; simpl.
  - split; [left|]. intros x Hx. apply list_elem_of_singleton in Hx. lia.
  - split.
    + destruct (Z.min_spec y (foldr Z.min h hs)) as [[_ ->]|[_ ->]].
      * right. left.
      * apply elem_of_cons in IHin as [->|Hin]; [left|right; now right].
    + intros x Hx.
      assert (Hc : x = y \/ x ∈ h :: hs).
      { apply elem_of_cons in Hx as [->|Hx]; [right; left|].
        apply elem_of_cons in Hx as [->|Hx]; [now left|right; now right]. }
      destruct Hc as [->|Hc]; [lia|]. specialize (IHle x Hc). lia.
Qed.

Lemma foldr_max_spec h hs :
  foldr Z.max h hs ∈ h :: hs
  /\ forall x, x ∈ h :: hs -> (x <= foldr Z.max h hs)%Z.
Proof.
  induction hs as [|y hs [IHin IHle]]; simpl.
  - split; [left|]. intros x Hx. apply list_elem_of_singleton in Hx. lia.
  - split.
    + destruct (Z.max_spec y (foldr Z.max h hs)) as [[_ ->]|[_ ->]].
      * apply elem_of_cons in IHin as [->|Hin]; [left|right; now right].
      * right. left.
    + intros x Hx.
      assert (Hc : x = y \/ x ∈ h :: hs).
      { apply elem_of_cons in Hx as [->|Hx]; [right; left|].
        apply elem_of_cons in Hx as [->|Hx]; [now left|right; now right]. }
      destruct Hc as [->|Hc]; [lia|]. specialize (IHle x Hc). lia.
Qed.

Lemma index_resample rows :
  Hourly.index <$> Hourly.resample_H_mean rows
  = match Hourly.index <$> rows with
    | [] => []
    | h :: hs =>
        seqZ (foldr Z.min h hs) (foldr Z.max h hs - foldr Z.min h hs + 1)
    end.
Proof.
  unfold Hourly.resample_H_mean.
  destruct (Hourly.index <$> rows) as [|h hs]; [reflexivity|].
  rewrite <- list_fmap_compose. apply list_fmap_id.
Qed.

Lemma index_ffill_rows l : forall p,
  Hourly.index <$> Hourly.ffill_rows p l = Hourly.index <$> l.
Proof.
  induction l as [|r l IH]; intros p; [reflexivity|].
  csimpl. f_equal. apply IH.
Qed.

Lemma index_fillna l :
  Hourly.index <$> Hourly.fillna_ffill l = Hourly.index <$> l.
Proof.
  destruct l as [|r l]; [reflexivity|].
  csimpl. f_equal. apply index_ffill_rows.
Qed.

Lemma label_lookup_inv hourly t row :
  Hourly.label hourly !! t = Some row ->
  exists r, hourly !! t = Some r
    /\ Hourly.index (Hourly.features row) = Hourly.index r
    /\ Hourly.MA_7_day (Hourly.features row) = Hourly.MA_7_day r
    /\ Hourly.adjusted_sentiment (Hourly.features row)
       = Hourly.adjusted_sentiment r
    /\ Hourly.lagged_sentiment (Hourly.features row)
       = match t with
         | O => None
         | S t' => hourly !! t' ≫= Hourly.adjusted_sentiment
         end
    /\ Hourly.Movement row
       = Hourly.astype_int
           (Hourly.gt (hourly !! S t ≫= Hourly.Close) (Hourly.Close r)).
Proof.
  intros Hrow. pose proof (lookup_lt_Some _ _ _ Hrow) as Hlt.
  rewrite length_label in Hlt.
  destruct (lookup_lt_is_Some_2 hourly t Hlt) as [r Hr].
  rewrite (label_lookup hourly t r Hr) in Hrow. injection Hrow as <-.
  exists r. repeat split; assumption || reflexivity.
Qed.

Lemma index_label hourly :
  Hourly.index ∘ Hourly.features <$> Hourly.label hourly
  = Hourly.index <$> hourly.
Proof.
  apply list_eq. intros t. rewrite !list_lookup_fmap.
  destruct (hourly !! t) as [r|] eqn:Hr.
  - now rewrite (label_lookup hourly t r Hr).
  - apply lookup_ge_None in Hr. rewrite <- length_label in Hr.
    now rewrite (proj2 (lookup_ge_None _ _) Hr).
Qed.

Lemma index_hourly_sorted rows :
  StronglySorted Z.lt
    (Hourly.index
       <$> Hourly.fillna_ffill (Hourly.resample_H_mean rows)).
Proof.
  rewrite index_fillna, index_resample.
  destruct (Hourly.index <$> rows); [constructor|apply seqZ_sorted].
Qed.

(** The resampled frame has one bucket for every hour between two time
    stamps of the input and for no other hour, in ascending order,
    whatever the order of the input rows. *)
Theorem resample_covers_every_hour (rows : list Hourly.Row) :
  StronglySorted Z.lt (Hourly.index <$> Hourly.resample_H_mean rows)
  /\ forall h,
       h ∈ Hourly.index <$> Hourly.resample_H_mean rows
       <-> exists a b, a ∈ Hourly.index <$> rows
                       /\ b ∈ Hourly.index <$> rows /\ (a <= h <= b)%Z.
Proof.
  rewrite index_resample.
  destruct (Hourly.index <$> rows) as [|i rest] eqn:E.
  - split; [constructor|]. intros h. split; [inversion 1|].
    intros (a & _ & Ha & _). inversion Ha.
  - destruct (foldr_min_spec i rest) as [Hmin Hlo].
    destruct (foldr_max_spec i rest) as [Hmax Hhi].
    split; [apply seqZ_sorted|]. intros h. rewrite elem_of_seqZ. split.
    + intros Hh. exists (foldr Z.min i rest), (foldr Z.max i rest).
      repeat split; try assumption; lia.
    + intros (a & b & Ha & Hb & Hab).
      specialize (Hlo a Ha). specialize (Hhi b Hb). lia.
Qed.

(** The classification data set is in time order, without a repeated
    hour. *)
Theorem hourly_dataset_chronological (merged_data : list Hourly.Row) :
  StronglySorted Z.lt
    (Hourly.index ∘ Hourly.features
       <$> Hourly.merged_data_hourly merged_data).
Proof.
  unfold Hourly.merged_data_hourly, Hourly.dropna.
  apply sorted_fmap_filter. rewrite index_label. apply index_hourly_sorted.
Qed.

(** The first hourly bucket never reaches the classification data set
    (its lag is undefined): every row of the data set is later than the
    earliest time stamp of the input. *)
Theorem hourly_first_bucket_dropped (merged_data : list Hourly.Row)
    (row : Hourly.Labelled) :
  row ∈ Hourly.merged_data_hourly merged_data ->
  exists first,
    first ∈ Hourly.index <$> merged_data
    /\ (forall h, h ∈ Hourly.index <$> merged_data -> (first <= h)%Z)
    /\ (first < Hourly.index (Hourly.features row))%Z.
Proof.
  unfold Hourly.merged_data_hourly, Hourly.dropna. intros Hin.
  apply list_elem_of_filter in Hin as [Hcomplete Hin].
  apply list_elem_of_lookup_1 in Hin as [t Ht].
  apply label_lookup_inv in Ht as (r & Hr & Hidx & _ & _ & Hlag & _).
  assert (Hi : (Hourly.index
                  <$> Hourly.fillna_ffill (Hourly.resample_H_mean merged_data))
               !! t = Some (Hourly.index r))
    by (now rewrite list_lookup_fmap, Hr).
  rewrite index_fillna, index_resample in Hi.
  destruct (Hourly.index <$> merged_data) as [|i rest]; [discriminate|].
  destruct (foldr_min_spec i rest) as [Hmin Hlo].
  exists (foldr Z.min i rest). split; [assumption|]. split; [assumption|].
  apply lookup_seqZ in Hi as [Hi _]. rewrite Hidx, Hi.
  destruct t as [|t]; [|lia]. exfalso.
  unfold Hourly.complete in Hcomplete. rewrite Hlag in Hcomplete.
  rewrite andb_comm in Hcomplete.
  destruct (bool_decide (is_Some (Hourly.MA_7_day (Hourly.features row))));
    simpl in Hcomplete; [|discriminate].
  now rewrite andb_false_r in Hcomplete.
Qed.

Lemma hourly_first_bucket_dropped_witness :
  exists first,
    first ∈ Hourly.index <$> two_buckets
    /\ (forall h, h ∈ Hourly.index <$> two_buckets -> (first <= h)%Z)
    /\ (first < 1)%Z.
Proof.
  apply (hourly_first_bucket_dropped two_buckets
           {| Hourly.features :=
                {| Hourly.index := 1; Hourly.sentiment := Some (4 # 10);
                   Hourly.adjusted_sentiment := Some (5 # 10);
                   Hourly.Close := Some (12 / inject_Z 1);
                   Hourly.lagged_sentiment := Some ((2 # 10) / inject_Z 1);
                   Hourly.MA_7_day := Some (11 / inject_Z 1) |};
              Hourly.Movement := 0 |}).
  vm_compute. left.
Defined.

Lemma nanmean_undefined cells :
  Forall (fun c => c = None) cells -> Hourly.nanmean cells = None.
Proof.
  intros H. unfold Hourly.nanmean.
  replace (omap id cells) with (@nil Q); [reflexivity|].
  induction H as [|c cells -> _ IH]; [reflexivity|]. exact IH.
Qed.

Lemma ffill_rows_undefined_ma l : forall p,
  Hourly.MA_7_day p = None ->
  Forall (fun r => Hourly.MA_7_day r = None) l ->
  Forall (fun r => Hourly.MA_7_day r = None) (Hourly.ffill_rows p l).
Proof.
  induction l as [|r l IH]; intros p Hp Hl; [constructor|].
  inversion Hl as [|? ? Hr Hl']; subst. simpl.
  assert (Hf : Hourly.MA_7_day (Hourly.fill_row p r) = None)
    by (simpl; now rewrite Hp, Hr).
  constructor; [exact Hf|now apply IH].
Qed.

(** Without a single defined rolling mean there is nothing to classify:
    the hourly data set is empty. *)
Theorem hourly_empty_without_rolling_mean (merged_data : list Hourly.Row) :
  Forall (fun r => Hourly.MA_7_day r = None) merged_data ->
  Hourly.merged_data_hourly merged_data = [].
Proof.
  intros Hall. unfold Hourly.merged_data_hourly, Hourly.dropna.
  assert (Hres : Forall (fun r => Hourly.MA_7_day r = None)
                   (Hourly.resample_H_mean merged_data)).
  { unfold Hourly.resample_H_mean.
    destruct (Hourly.index <$> merged_data); [constructor|].
    apply Forall_fmap, Forall_forall. intros h _. simpl.
    apply nanmean_undefined, Forall_fmap, Forall_forall. intros r Hr.
    apply list_elem_of_filter in Hr as [_ Hr].
    now apply (proj1 (Forall_forall _ _) Hall). }
  assert (Hfill : Forall (fun r => Hourly.MA_7_day r = None)
                    (Hourly.fillna_ffill
                       (Hourly.resample_H_mean merged_data))).
  { destruct (Hourly.resample_H_mean merged_data) as [|r l];
      [constructor|].
    inversion Hres; subst. simpl.
    constructor; [assumption|now apply ffill_rows_undefined_ma]. }
  apply filter_none, Forall_lookup. intros t row Hrow Hcomplete.
  apply label_lookup_inv in Hrow as (r & Hr & _ & Hma & _).
  rewrite (proj1 (Forall_lookup _ _) Hfill t r Hr) in Hma.
  unfold Hourly.complete in Hcomplete. rewrite Hma in Hcomplete.
  now rewrite andb_false_r in Hcomplete.
Qed.

Lemma hourly_empty_without_rolling_mean_witness :
  Hourly.merged_data_hourly (take 6 sample_frame) = [].
Proof.
  apply hourly_empty_without_rolling_mean. vm_compute. repeat constructor.
Defined.

Lemma ffill_rows_step l : forall p t prev cur,
  Hourly.ffill_rows p l !! t = Some prev -> l !! S t = Some cur ->
  Hourly.ffill_rows p l !! S t = Some (Hourly.fill_row prev cur).
Proof.
  induction l as [|x l IH]; intros p t prev cur Hprev Hcur; [discriminate|].
  destruct t as [|t]; simpl in *.
  - injection Hprev as <-. destruct l as [|y l]; [discriminate|].
    simpl in Hcur. injection Hcur as ->. reflexivity.
  - now apply IH.
Qed.

Lemma fillna_step l t prev cur :
  Hourly.fillna_ffill l !! t = Some prev -> l !! S t = Some cur ->
  Hourly.fillna_ffill l !! S t = Some (Hourly.fill_row prev cur).
Proof.
  destruct l as [|r l]; [discriminate|]. simpl. intros Hprev Hcur.
  destruct t as [|t]; simpl in Hprev.
  - injection Hprev as <-. destruct l as [|y l]; [discriminate|].
    simpl in Hcur. injection Hcur as ->. reflexivity.
  - now apply ffill_rows_step.
Qed.

Lemma bucket_without_rows rows h :
  h ∉ Hourly.index <$> rows ->
  Hourly.bucket rows h
  = {| Hourly.index := h; Hourly.sentiment := None;
       Hourly.adjusted_sentiment := None; Hourly.Close := None;
       Hourly.lagged_sentiment := None; Hourly.MA_7_day := None |}.
Proof.
  intros Hh. unfold Hourly.bucket.
  replace (filter (fun r => Hourly.index r = h) rows) with (@nil Hourly.Row);
    [reflexivity|].
  symmetry. apply filter_none, Forall_forall. intros r Hr E.
  apply Hh. rewrite <- E. now apply list_elem_of_fmap_2.
Qed.

Lemma gt_self c : Hourly.gt c c = false.
Proof.
  destruct c as [x|]; [|reflexivity]. simpl.
  now rewrite (proj2 (Qle_bool_iff x x) (Qle_refl x)).
Qed.

(** An hour without input row is a copy of the hour before it: the hour
    before it gets the label 0, and the hour itself gets a lag equal to
    its own adjusted sentiment. The label 1 can only stand right before
    an hour that has input rows. *)
Theorem movement_zero_before_empty_hour (merged_data : list Hourly.Row)
    (t : nat) (next : Hourly.Row) (row row' : Hourly.Labelled) :
  let hourly :=
    Hourly.fillna_ffill (Hourly.resample_H_mean merged_data) in
  hourly !! S t = Some next ->
  Hourly.index next ∉ Hourly.index <$> merged_data ->
  Hourly.label hourly !! t = Some row ->
  Hourly.label hourly !! S t = Some row' ->
  Hourly.Movement row = 0%Z
  /\ Hourly.lagged_sentiment (Hourly.features row')
     = Hourly.adjusted_sentiment (Hourly.features row').
Proof.
  intros hourly Hnext Hempty Hrow Hrow'.
  apply label_lookup_inv in Hrow as (r & Hr & _ & _ & _ & _ & Hmove).
  apply label_lookup_inv in Hrow'
    as (r' & Hr' & _ & _ & Hadj & Hlag & _).
  rewrite Hnext in Hr'. injection Hr' as <-.
  destruct (lookup_lt_is_Some_2 (Hourly.resample_H_mean merged_data) (S t))
    as [cur Hcur].
  { apply lookup_lt_Some in Hnext.
    rewrite <- (length_fmap Hourly.index) in Hnext.
    subst hourly. rewrite index_fillna, length_fmap in Hnext. exact Hnext. }
  pose proof (fillna_step _ _ _ _ Hr Hcur) as Hstep. fold hourly in Hstep.
  rewrite Hnext in Hstep. injection Hstep as ->.
  assert (Hb : cur = Hourly.bucket merged_data (Hourly.index cur)).
  { unfold Hourly.resample_H_mean in Hcur.
    destruct (Hourly.index <$> merged_data); [discriminate|].
    rewrite list_lookup_fmap in Hcur.
    destruct (seqZ _ _ !! S t) as [h|]; [|discriminate].
    simpl in Hcur. now injection Hcur as <-. }
  simpl in Hempty. rewrite Hb, bucket_without_rows in * by assumption.
  split.
  - rewrite Hmove, Hnext. simpl. now rewrite gt_self.
  - rewrite Hlag, Hadj, Hr. reflexivity.
Qed.

Lemma movement_zero_before_empty_hour_witness :
  Hourly.Movement <$> Hourly.label
                        (Hourly.fillna_ffill
                           (Hourly.resample_H_mean gap_frame)) !! 0%nat
  = Some 0%Z.
Proof.
  destruct (Hourly.label
              (Hourly.fillna_ffill (Hourly.resample_H_mean gap_frame))
            !! 0%nat) as [row|] eqn:Hrow; [|discriminate].
  destruct (Hourly.label
              (Hourly.fillna_ffill (Hourly.resample_H_mean gap_frame))
            !! 1%nat) as [row'|] eqn:Hrow'; [|discriminate].
  destruct (Hourly.fillna_ffill (Hourly.resample_H_mean gap_frame)
            !! 1%nat) as [next|] eqn:Hnext; [|discriminate].
  simpl. f_equal.
  apply (movement_zero_before_empty_hour gap_frame 0 next row row');
    try assumption.
  injection Hnext as <-. vm_compute. intros H.
  repeat (apply elem_of_cons in H as [H|H]; [discriminate|]).
  inversion H.
Defined.

(** ** The chronological split *)

Lemma split_index_spec n :
  (5 * split_index n <= 4 * n < 5 * (split_index n + 1))%nat.
Proof.
  unfold split_index.
  change (Qfloor (inject_Z (Z.of_nat n) * (8 # 10)))
    with ((Z.of_nat n * 8) / 10)%Z.
  pose proof (Z.div_mod (Z.of_nat n * 8) 10 ltac:(lia)).
  pose proof (Z.mod_pos_bound (Z.of_nat n * 8) 10 ltac:(lia)).
  lia.
Qed.

(** The split keeps every row once and in order, the training part being
    the first four fifths (rounded down): the test part has at least one
    row in five, so it is not empty unless the data set is, while a data
    set of one row leaves the training part empty. *)
Theorem chronological_split {A} (rows : list A) :
  train_hourly rows ++ test_hourly rows = rows
  /\ (5 * length (train_hourly rows) <= 4 * length rows
      < 5 * (length (train_hourly rows) + 1))%nat
  /\ (length rows <= 5 * length (test_hourly rows))%nat
  /\ (length (train_hourly rows) + length (test_hourly rows)
      = length rows)%nat.
Proof.
  unfold train_hourly, test_hourly.
  pose proof (split_index_spec (length rows)) as H.
  rewrite take_drop, length_take, length_drop.
  repeat split; lia.
Qed.

(** No look-ahead in the split: every training row of the hourly data
    set is earlier than every test row. *)
Theorem split_train_before_test (merged_data : list Hourly.Row)
    (a b : Hourly.Labelled) :
  a ∈ train_hourly (Hourly.merged_data_hourly merged_data) ->
  b ∈ test_hourly (Hourly.merged_data_hourly merged_data) ->
  (Hourly.index (Hourly.features a) < Hourly.index (Hourly.features b))%Z.
Proof.
  intros Ha Hb.
  pose proof (hourly_dataset_chronological merged_data) as Hs.
  rewrite <- (take_drop
                (split_index (length (Hourly.merged_data_hourly merged_data)))
                (Hourly.merged_data_hourly merged_data)) in Hs.
  rewrite fmap_app in Hs.
  apply (StronglySorted_app_1_elem_of _ _ _ _ _ Hs).
  - now apply (list_elem_of_fmap_2 (Hourly.index ∘ Hourly.features)) in Ha.
  - now apply (list_elem_of_fmap_2 (Hourly.index ∘ Hourly.features)) in Hb.
Qed.

Lemma split_train_before_test_witness : (1 < 2)%Z.
Proof.
  refine (split_train_before_test gap_frame
            {| Hourly.features :=
                 {| Hourly.index := 1; Hourly.sentiment := Some (1 # 10);
                    Hourly.adjusted_sentiment := Some (2 # 10);
                    Hourly.Close := Some 10;
                    Hourly.lagged_sentiment := Some (2 # 10);
                    Hourly.MA_7_day := Some 10 |};
               Hourly.Movement := 1 |}
            {| Hourly.features :=
                 {| Hourly.index := 2; Hourly.sentiment := Some (4 # 10);
                    Hourly.adjusted_sentiment := Some (5 # 10);
                    Hourly.Close := Some 12;
                    Hourly.lagged_sentiment := Some (2 # 10);
                    Hourly.MA_7_day := Some 11 |};
               Hourly.Movement := 0 |} _ _); vm_compute; left.
Defined.

Lemma movement_next_close_witness :
  exists row, Hourly.label two_buckets !! 0%nat = Some row
    /\ (10 < 12 -> Hourly.Movement row = 1%Z)
    /\ (12 <= 10 -> Hourly.Movement row = 0%Z).
Proof.
  refine (movement_next_close two_buckets 0 _ _ 10 12 _ _ _ _);
    reflexivity.
Defined.

Lemma last_bucket_kept_witness :
  {| Hourly.features :=
       {| Hourly.index := 1; Hourly.sentiment := Some (4 # 10);
          Hourly.adjusted_sentiment := Some (5 # 10);
          Hourly.Close := Some 12;
          Hourly.lagged_sentiment := Some (2 # 10);
          Hourly.MA_7_day := Some 11 |};
     Hourly.Movement := 0 |}
  ∈ Hourly.dropna (Hourly.label two_buckets).
Proof.
  refine (last_bucket_kept two_buckets 0
            {| Hourly.index := 0; Hourly.sentiment := Some (1 # 10);
               Hourly.adjusted_sentiment := Some (2 # 10);
               Hourly.Close := Some 10; Hourly.lagged_sentiment := Some 0;
               Hourly.MA_7_day := Some 10 |}
            {| Hourly.index := 1; Hourly.sentiment := Some (4 # 10);
               Hourly.adjusted_sentiment := Some (5 # 10);
               Hourly.Close := Some 12;
               Hourly.lagged_sentiment := Some (2 # 10);
               Hourly.MA_7_day := Some 11 |}
            (4 # 10) (5 # 10) 12 11 (2 # 10) _ _ _ _ _ _ _ _); reflexivity.
Defined.
